(** * Mercurial Clock: the time mapping, the time store and the settings storage

    A shallow embedding of
      - [src/lib/core/timeCalculation.ts]  ([computeMercurialTime]),
      - [src/lib/core/mercurialTime.ts]    ([createMercurialTimeStore]),
      - [src/lib/utils/storage.ts]         ([normalizeSettings],
                                            [loadFromStorage], [saveToStorage]),
      - [src/lib/core/types.ts]            ([DEFAULT_SETTINGS], [RATE_MIN], [RATE_MAX]).

    together with the parts of the host they call: [Date], [Math], the
    animation frame callbacks, svelte's [writable], [localStorage], [JSON]
    and [parseFloat].

    A JavaScript [number] is an IEEE 754 binary64 value: it is modelled by
    Rocq's primitive [float], whose operations are the same binary64
    operations with round-to-nearest-even. *)

From Stdlib Require Import ZArith Floats.
From stdpp Require Import base option list strings gmap.

Set Warnings "-inexact-float".
Local Open Scope float_scope.

(** ** Binary64 facts

    The primitive operations are specified through [Prim2SF], the view of a
    float as a [spec_float]: a NaN, an infinity, a signed zero or a finite
    non-zero number [(-1)^s * m * 2^e]. *)

Module Binary64.

Abbreviation SF := Prim2SF.

(** The class of a number, read off its [spec_float]. *)
Definition SFfinite (x : spec_float) : bool :=
  match x with
  | S754_zero _ | S754_finite _ _ _ => true
  | S754_nan | S754_infinity _ => false
  end.

Definition SFnan (x : spec_float) : bool :=
  match x with S754_nan => true | _ => false end.

Lemma is_nan_SF (x : float) : is_nan x = SFnan (SF x).
Proof.
  unfold Prim2SF.
  destruct (is_nan x); [reflexivity|].
  destruct (is_zero x); [reflexivity|].
  destruct (is_infinity x); [reflexivity|].
  destruct (Z.frexp x) as [r ex].
  destruct (shr_fexp _ _ _ _ _) as [shr e'].
  destruct (shr_m shr); reflexivity.
Qed.

Lemma is_infinity_SF (x : float) :
  is_infinity x = match SF x with S754_infinity _ => true | _ => false end.
Proof.
  unfold is_infinity. rewrite FloatAxioms.eqb_spec, FloatAxioms.abs_spec.
  destruct (SF x) as [s| s| |s m e]; reflexivity.
Qed.

Lemma is_finite_SF (x : float) : is_finite x = SFfinite (SF x).
Proof.
  unfold is_finite. rewrite is_nan_SF, is_infinity_SF.
  destruct (SF x); reflexivity.
Qed.

Lemma SF_zero_inv (x : float) (s : bool) :
  SF x = S754_zero s -> x = if s then neg_zero else zero.
Proof.
  intros H. rewrite <- (SF2Prim_Prim2SF x), H. destruct s; reflexivity.
Qed.

Lemma SF_infinity_inv (x : float) (s : bool) :
  SF x = S754_infinity s -> x = if s then neg_infinity else infinity.
Proof.
  intros H. rewrite <- (SF2Prim_Prim2SF x), H. destruct s; reflexivity.
Qed.

Lemma SF_nan_inv (x : float) : SF x = S754_nan -> x = nan.
Proof. intros H. rewrite <- (SF2Prim_Prim2SF x), H. reflexivity. Qed.

(** *** Comparison *)

Lemma SFcompare_refl (x : spec_float) :
  SFnan x = false -> SFcompare x x = Some Eq.
Proof.
  destruct x as [s| s| |s m e]; simpl; try discriminate; intros _.
  - reflexivity.
  - destruct s; reflexivity.
  - rewrite Z.compare_refl.
    change (Pos.compare_cont Eq m m) with (Pos.compare m m).
    rewrite Pos.compare_refl. destruct s; reflexivity.
Qed.

Lemma SFcompare_None (x y : spec_float) :
  SFcompare x y = None <-> SFnan x = true \/ SFnan y = true.
Proof.
  destruct x as [sx| sx| |sx mx ex], y as [sy| sy| |sy my ey]; simpl;
    split; intros H; try discriminate; try (destruct H; discriminate);
    auto.
Qed.

Lemma SFcompare_antisym (x y : spec_float) :
  SFcompare y x = option_map CompOpp (SFcompare x y).
Proof.
  destruct x as [sx| sx| |sx mx ex], y as [sy| sy| |sy my ey]; simpl;
    try reflexivity;
    try (destruct sx; reflexivity); try (destruct sy; reflexivity);
    try (destruct sx, sy; reflexivity).
  f_equal.
  change (Pos.compare_cont Eq mx my) with (Pos.compare mx my).
  change (Pos.compare_cont Eq my mx) with (Pos.compare my mx).
  rewrite (Z.compare_antisym ex ey), (Pos.compare_antisym mx my).
  destruct sx, sy; simpl; try reflexivity;
    destruct (ex ?= ey)%Z; simpl; try reflexivity;
    destruct (mx ?= my)%positive; reflexivity.
Qed.

(** Two numbers that compare equal are the same number, or two zeros. *)
Lemma SFcompare_Eq_inv (x y : spec_float) :
  SFcompare x y = Some Eq ->
  x = y \/ (exists sx sy, x = S754_zero sx /\ y = S754_zero sy).
Proof.
  destruct x as [sx| sx| |sx mx ex], y as [sy| sy| |sy my ey]; simpl;
    intros H; try discriminate;
    try (destruct sx; discriminate); try (destruct sy; discriminate).
  - right. eauto.
  - left. destruct sx, sy; try discriminate; reflexivity.
  - left.
    change (Pos.compare_cont Eq mx my) with (Pos.compare mx my) in H.
    destruct sx, sy; try discriminate;
      destruct (ex ?= ey)%Z eqn:He; try discriminate;
      destruct (mx ?= my)%positive eqn:Hm; try discriminate;
      apply Z.compare_eq in He; apply Pos.compare_eq in Hm; subst; reflexivity.
Qed.

(** On numbers, [<] and [<=] are total: when [x < y] fails, [y <= x]. *)
Lemma ltb_false_leb (x y : float) :
  is_nan x = false -> is_nan y = false -> (x <? y) = false -> (y <=? x) = true.
Proof.
  rewrite !is_nan_SF, FloatAxioms.ltb_spec, FloatAxioms.leb_spec. unfold SFltb, SFleb.
  intros Hx Hy. rewrite (SFcompare_antisym (SF x) (SF y)).
  destruct (SFcompare (SF x) (SF y)) as [[]|] eqn:Hc; simpl; try easy.
  apply SFcompare_None in Hc. destruct Hc; congruence.
Qed.

Lemma leb_ltb_false (x y : float) : (x <=? y) = true -> (y <? x) = false.
Proof.
  rewrite FloatAxioms.ltb_spec, FloatAxioms.leb_spec. unfold SFltb, SFleb.
  rewrite (SFcompare_antisym (SF x) (SF y)).
  destruct (SFcompare (SF x) (SF y)) as [[]|]; simpl; easy.
Qed.

Lemma ltb_leb (x y : float) : (x <? y) = true -> (x <=? y) = true.
Proof.
  rewrite FloatAxioms.ltb_spec, FloatAxioms.leb_spec. unfold SFltb, SFleb.
  destruct (SFcompare (SF x) (SF y)) as [[]|]; easy.
Qed.

Lemma leb_not_nan (x y : float) :
  (x <=? y) = true -> is_nan x = false /\ is_nan y = false.
Proof.
  rewrite !is_nan_SF, FloatAxioms.leb_spec. unfold SFleb.
  destruct (SFcompare (SF x) (SF y)) eqn:Hc; [|discriminate].
  intros _. destruct (SFnan (SF x)) eqn:Hx, (SFnan (SF y)) eqn:Hy; auto;
    assert (SFcompare (SF x) (SF y) = None) by (apply SFcompare_None; auto);
    congruence.
Qed.

(** Neither [x < y] nor [y < x], and [y] is not a zero: [x] is [y]. *)
Lemma ltb_false_both_eq (x y : float) :
  is_nan x = false -> is_nan y = false -> is_zero y = false ->
  (x <? y) = false -> (y <? x) = false -> x = y.
Proof.
  rewrite !is_nan_SF. unfold is_zero. rewrite !FloatAxioms.ltb_spec, FloatAxioms.eqb_spec.
  unfold SFltb, SFeqb. intros Hx Hy Hz.
  rewrite (SFcompare_antisym (SF x) (SF y)).
  destruct (SFcompare (SF x) (SF y)) as [[]|] eqn:Hc; simpl; try easy.
  - intros _ _. apply SFcompare_Eq_inv in Hc as [Heq|(sx & sy & Hsx & Hsy)].
    + now apply Prim2SF_inj.
    + rewrite Hsy in Hz. discriminate.
  - apply SFcompare_None in Hc. destruct Hc; congruence.
Qed.

(** *** Arithmetic at zero elapsed time *)

Lemma sub_diag (x : float) : is_finite x = true -> x - x = zero.
Proof.
  rewrite is_finite_SF. intros Hx.
  apply Prim2SF_inj. rewrite FloatAxioms.sub_spec.
  destruct (SF x) as [s| s| |s m e]; try discriminate.
  - destruct s; reflexivity.
  - unfold SF64sub, SFsub. rewrite Z.sub_diag. reflexivity.
Qed.

Lemma zero_mul (r : float) :
  is_finite r = true -> exists s, SF (zero * r) = S754_zero s.
Proof.
  rewrite is_finite_SF, FloatAxioms.mul_spec. intros Hr.
  change (SF zero) with (S754_zero false).
  destruct (SF r) as [s| s| |s m e]; try discriminate; simpl; eauto.
Qed.

Lemma add_zero_r (d z : float) (s : bool) :
  SF z = S754_zero s -> is_finite d = true ->
  (d + z =? d) = true /\ (d <> neg_zero -> d + z = d).
Proof.
  rewrite is_finite_SF, FloatAxioms.eqb_spec, FloatAxioms.add_spec. intros Hz Hd.
  assert (Hadd : forall t, SF (d + t) = SF64add (SF d) (SF t))
    by (intros; apply FloatAxioms.add_spec).
  rewrite Hz. destruct (SF d) as [sd| sd| |sd md ed] eqn:Ed; try discriminate.
  - split.
    + simpl. destruct sd, s; reflexivity.
    + intros Hneg. apply Prim2SF_inj. rewrite Hadd, Hz, Ed.
      destruct sd.
      * apply SF_zero_inv in Ed. contradiction.
      * destruct s; reflexivity.
  - split.
    + unfold SF64add, SFadd, SFeqb. now rewrite SFcompare_refl.
    + intros _. apply Prim2SF_inj. rewrite Hadd, Hz, Ed. reflexivity.
Qed.

(** *** Arithmetic on what is not finite *)

Lemma sub_diag_not_finite (x : float) : is_finite x = false -> x - x = nan.
Proof.
  rewrite is_finite_SF. intros Hx.
  apply SF_nan_inv. rewrite FloatAxioms.sub_spec.
  destruct (SF x) as [s| s| |s m e]; try discriminate.
  - destruct s; reflexivity.
  - reflexivity.
Qed.

Lemma nan_mul (r : float) : nan * r = nan.
Proof.
  apply SF_nan_inv. rewrite FloatAxioms.mul_spec.
  change (SF nan) with S754_nan. reflexivity.
Qed.

Lemma add_nan_r (x : float) : x + nan = nan.
Proof.
  apply SF_nan_inv. rewrite FloatAxioms.add_spec.
  change (SF nan) with S754_nan. destruct (SF x); reflexivity.
Qed.

(** Only a zero equals a zero. *)
Lemma eqb_zero_inv (x z : float) (s : bool) :
  SF z = S754_zero s -> (x =? z) = true -> exists s', SF x = S754_zero s'.
Proof.
  rewrite FloatAxioms.eqb_spec. intros Hz. rewrite Hz. unfold SFeqb.
  destruct (SF x) as [sx| sx| |sx mx ex]; simpl; eauto; try discriminate;
    destruct sx; discriminate.
Qed.

End Binary64.

(** ** The host: ECMAScript built-ins the sources call

    [Math.max], [Math.min] on two numbers, and the time value a [Date] holds:
    [new Date(value)] stores [TimeClip(value)], the number truncated to whole
    milliseconds, or NaN outside +-8.64e15 ms. *)

Module JS.

(** [Math.max(x, y)]: NaN when an argument is NaN; [+0] is larger than [-0]. *)
Definition Math_max (x y : float) : float :=
  if is_nan x || is_nan y then nan
  else if x <? y then y
  else if y <? x then x
  else if get_sign x then y else x.

(** [Math.min(x, y)]: NaN when an argument is NaN; [-0] is smaller than [+0]. *)
Definition Math_min (x y : float) : float :=
  if is_nan x || is_nan y then nan
  else if x <? y then x
  else if y <? x then y
  else if get_sign x then x else y.

(** The integral part of a finite number, rounding towards zero. *)
Definition truncate (x : float) : float :=
  match Prim2SF x with
  | S754_finite s m e =>
      if (0 <=? e)%Z then x
      else
        let q := of_uint63 (Uint63.of_Z (Z.shiftr (Z.pos m) (- e))) in
        if s then - q else q
  | _ => x
  end.

(** [TimeClip(time)]; adding [+0] turns [-0] into [+0]. *)
Definition TimeClip (time : float) : float :=
  if negb (is_finite time) then nan
  else if 8.64e15 <? abs time then nan
  else truncate time + 0.

(** A [Date] object, as far as the sources use it: its time value. *)
Record Date : Type := mkDate { getTime : float }.

(** [new Date(value)] for a number [value]. *)
Definition Date_new (value : float) : Date := mkDate (TimeClip value).

Example TimeClip_whole : TimeClip 1001 = 1001. Proof. reflexivity. Qed.
Example TimeClip_fraction : TimeClip 1001.5 = 1001. Proof. reflexivity. Qed.
Example TimeClip_negative : TimeClip (-1.5) = (-1). Proof. reflexivity. Qed.
Example TimeClip_neg_zero : TimeClip (-0.5) = zero. Proof. reflexivity. Qed.
Example TimeClip_limit : TimeClip 8.64e15 = 8.64e15. Proof. reflexivity. Qed.
Example TimeClip_range : TimeClip 8.64e15 = 8.64e15 /\ TimeClip 8640000000000001 = nan.
Proof. split; reflexivity. Qed.
Example TimeClip_infinity : TimeClip infinity = nan. Proof. reflexivity. Qed.

(** Against a number [y] that is not a zero, [Math.max] and [Math.min]
    are one comparison. *)
Lemma Math_max_nonzero (x y : float) :
  is_nan x = false -> is_nan y = false -> is_zero y = false ->
  Math_max x y = if x <? y then y else x.
Proof.
  intros Hx Hy Hz. unfold Math_max. rewrite Hx, Hy. simpl.
  destruct (x <? y) eqn:Hxy; [reflexivity|].
  destruct (y <? x) eqn:Hyx; [reflexivity|].
  rewrite (Binary64.ltb_false_both_eq x y Hx Hy Hz Hxy Hyx).
  now destruct (get_sign y).
Qed.

Lemma Math_min_nonzero (x y : float) :
  is_nan x = false -> is_nan y = false -> is_zero y = false ->
  Math_min x y = if y <? x then y else x.
Proof.
  intros Hx Hy Hz. unfold Math_min. rewrite Hx, Hy. simpl.
  destruct (x <? y) eqn:Hxy.
  - now rewrite (Binary64.leb_ltb_false x y)
      by (apply Binary64.ltb_leb; exact Hxy).
  - destruct (y <? x) eqn:Hyx; [reflexivity|].
    rewrite (Binary64.ltb_false_both_eq x y Hx Hy Hz Hxy Hyx).
    now destruct (get_sign y).
Qed.

End JS.

(** ** src/lib/core/timeCalculation.ts *)

Definition computeMercurialTime
  (baseRealMs baseDisplayMs nowRealMs rate : float) : float :=
  let elapsedReal := nowRealMs - baseRealMs in
  let elapsedDisplay := elapsedReal * rate in
  baseDisplayMs + elapsedDisplay.

(** The cases of tests/core/timeCalculation.test.ts. *)
Example rate_1_0 : computeMercurialTime 1000 1000 2000 1.0 = 2000.
Proof. reflexivity. Qed.
Example rate_2_0 : computeMercurialTime 1000 1000 2000 2.0 = 3000.
Proof. reflexivity. Qed.
Example rate_0_5 : computeMercurialTime 1000 1000 3000 0.5 = 2000.
Proof. reflexivity. Qed.
Example other_display_anchor : computeMercurialTime 1000 5000 2000 1.0 = 6000.
Proof. reflexivity. Qed.
Example rate_1_1 : computeMercurialTime 0 0 1000 1.1 = 1100.
Proof. reflexivity. Qed.
Example zero_elapsed : computeMercurialTime 1000 5000 1000 2.0 = 5000.
Proof. reflexivity. Qed.

(** With no elapsed time the product is a zero only for a finite rate:
    [0 * Infinity] and [0 * NaN] are NaN. *)
Lemma zero_elapsed_finite (baseRealMs baseDisplayMs rate : float) :
  is_finite baseRealMs = true -> is_finite baseDisplayMs = true ->
  is_finite rate = true ->
  (computeMercurialTime baseRealMs baseDisplayMs baseRealMs rate =? baseDisplayMs)
    = true
  /\ (baseDisplayMs <> neg_zero ->
      computeMercurialTime baseRealMs baseDisplayMs baseRealMs rate = baseDisplayMs).
Proof.
  intros Hb Hd Hr. unfold computeMercurialTime.
  rewrite (Binary64.sub_diag _ Hb).
  destruct (Binary64.zero_mul rate Hr) as [s Hs].
  exact (Binary64.add_zero_r baseDisplayMs _ s Hs Hd).
Qed.

(** The [Date] made of the display time at zero elapsed time is the [Date]
    made of the anchor: [TimeClip] sends both zeros to [+0] and all that is
    not finite to NaN. *)
Lemma Date_new_zero_elapsed (now rate : float) :
  is_finite rate = true ->
  JS.Date_new (computeMercurialTime now now now rate) = JS.Date_new now.
Proof.
  intros Hr. unfold JS.Date_new. f_equal.
  destruct (is_finite now) eqn:Hn.
  - destruct (zero_elapsed_finite now now rate Hn Hn Hr) as [Heq Hsame].
    rewrite Binary64.is_finite_SF in Hn.
    destruct (Binary64.SF now) as [s| s| |s m e] eqn:E; try discriminate.
    + destruct (Binary64.eqb_zero_inv _ _ _ E Heq) as [s' E'].
      rewrite (Binary64.SF_zero_inv _ _ E'), (Binary64.SF_zero_inv _ _ E).
      destruct s, s'; reflexivity.
    + rewrite Hsame; [reflexivity|].
      intros ->. discriminate E.
  - unfold computeMercurialTime.
    rewrite (Binary64.sub_diag_not_finite _ Hn), Binary64.nan_mul,
      Binary64.add_nan_r.
    unfold JS.TimeClip. rewrite Hn. reflexivity.
Qed.

(** C1 (as amended). [computeMercurialTime] is the formula
    [baseDisplayMs + (nowRealMs - baseRealMs) * rate] on all inputs; when
    [nowRealMs] is [baseRealMs] and the anchors and the rate are finite, the
    result equals [baseDisplayMs] (as [==] has it), whatever the sign of the
    rate, and is the very same number unless [baseDisplayMs] is [-0]. *)
Theorem computeMercurialTime_formula
    (baseRealMs baseDisplayMs nowRealMs rate : float) :
  computeMercurialTime baseRealMs baseDisplayMs nowRealMs rate =
    baseDisplayMs + (nowRealMs - baseRealMs) * rate
  /\ (is_finite baseRealMs = true -> is_finite baseDisplayMs = true ->
      is_finite rate = true ->
      (computeMercurialTime baseRealMs baseDisplayMs baseRealMs rate
         =? baseDisplayMs) = true
      /\ (baseDisplayMs <> neg_zero ->
          computeMercurialTime baseRealMs baseDisplayMs baseRealMs rate
            = baseDisplayMs)).
Proof.
  split; [reflexivity|]. apply zero_elapsed_finite.
Qed.

Lemma computeMercurialTime_formula_witness :
  computeMercurialTime 1000 5000 2000 (-2) = 5000 + (2000 - 1000) * (-2)
  /\ (computeMercurialTime 1000 5000 1000 (-2) =? 5000) = true
  /\ computeMercurialTime 1000 5000 1000 0 = 5000.
Proof.
  destruct (computeMercurialTime_formula 1000 5000 2000 (-2)) as [Hf _].
  destruct (computeMercurialTime_formula 1000 5000 1000 (-2)) as [_ Hneg].
  destruct (computeMercurialTime_formula 1000 5000 1000 0) as [_ Hzero].
  split; [exact Hf|]. split.
  - exact (proj1 (Hneg eq_refl eq_refl eq_refl)).
  - apply (proj2 (Hzero eq_refl eq_refl eq_refl)).
    intros H. apply (f_equal (fun x => x =? 5000)) in H. discriminate H.
Defined.

(** C1 (as stated) fails: with no elapsed time and an infinite or NaN rate
    the result is NaN, not [baseDisplayMs]; so does an infinite anchor. *)
Lemma zero_elapsed_not_finite :
  computeMercurialTime 1000 5000 1000 infinity = nan
  /\ (computeMercurialTime 1000 5000 1000 infinity =? 5000) = false
  /\ (computeMercurialTime 1000 5000 1000 nan =? 5000) = false
  /\ (computeMercurialTime infinity 5000 infinity 2 =? 5000) = false.
Proof. repeat split; reflexivity. Qed.

(** ** src/lib/core/types.ts: MercurialTimeState *)

Module MercurialTimeState.

Record t : Type := mk {
  displayTime : JS.Date;
  realTime : JS.Date;
  rate : float;
  isRunning : bool
}.

End MercurialTimeState.

(** ** src/lib/core/mercurialTime.ts

    [createMercurialTimeStore] returns closures over five variables and a
    svelte [writable]. The closures run against a host that owns the clock
    behind [Date.now()] and the list of animation frame callbacks. A world
    gathers the three. *)

Module MercurialTime.

Import MercurialTimeState.

(** The variables of the closure. *)
Record Vars : Type := mkVars {
  baseRealMs : float;
  baseDisplayMs : float;
  rate : float;
  isRunning : bool;
  rafId : option nat
}.

(** svelte/store's [writable], as far as the store uses it: the current
    value, and what [set] has handed to a subscriber attached since the
    creation, oldest first. A snapshot is a fresh object each time, so [set]
    never skips it as unchanged. *)
Record Writable : Type := mkWritable {
  value : MercurialTimeState.t;
  published : list MercurialTimeState.t
}.

(** The host. [clock k] is what the [k]-th call of [Date.now()] returns:
    two calls are two readings, and nothing ties one reading to the next.
    [frameRequests] are the handles of the store's callbacks waiting for
    the next frame (every callback the store registers is [tick]); none is
    queued before the store exists. *)
Record Host : Type := mkHost {
  clock : nat -> float;
  clockReads : nat;
  frameRequests : list nat;
  lastHandle : nat
}.

Record World : Type := mkWorld {
  vars : Vars;
  store : Writable;
  host : Host
}.

(** *** A state monad over the world *)

Definition M (A : Type) : Type := World -> A * World.

#[export] Instance M_ret : MRet M := fun A (a : A) w => (a, w).
#[export] Instance M_bind : MBind M :=
  fun A B (f : A -> M B) (m : M A) w => let (a, w') := m w in f a w'.

Definition exec {A : Type} (m : M A) (w : World) : World := snd (m w).

Definition getVars : M Vars := fun w => (vars w, w).
Definition putVars (v : Vars) : M unit :=
  fun w => (tt, mkWorld v (store w) (host w)).
Definition modifyHost (f : Host -> Host) : M unit :=
  fun w => (tt, mkWorld (vars w) (store w) (f (host w))).

(** Assignments to the closure's variables. *)
Definition assign_baseRealMs (x : float) : M unit :=
  v ← getVars;
  putVars (mkVars x (baseDisplayMs v) (rate v) (isRunning v) (rafId v)).
Definition assign_baseDisplayMs (x : float) : M unit :=
  v ← getVars;
  putVars (mkVars (baseRealMs v) x (rate v) (isRunning v) (rafId v)).
Definition assign_rate (x : float) : M unit :=
  v ← getVars;
  putVars (mkVars (baseRealMs v) (baseDisplayMs v) x (isRunning v) (rafId v)).
Definition assign_isRunning (x : bool) : M unit :=
  v ← getVars;
  putVars (mkVars (baseRealMs v) (baseDisplayMs v) (rate v) x (rafId v)).
Definition assign_rafId (x : option nat) : M unit :=
  v ← getVars;
  putVars (mkVars (baseRealMs v) (baseDisplayMs v) (rate v) (isRunning v) x).

(** *** Host calls *)

(** [Date.now()]: the next reading of the clock. *)
Definition Date_now_host (h : Host) : float * Host :=
  (clock h (clockReads h),
   mkHost (clock h) (S (clockReads h)) (frameRequests h) (lastHandle h)).

Definition Date_now : M float :=
  fun w => let (now, h) := Date_now_host (host w) in
           (now, mkWorld (vars w) (store w) h).

(** [requestAnimationFrame(tick)]: a new handle, queued for the next frame. *)
Definition requestAnimationFrame : M nat :=
  fun w =>
    let h := host w in
    let id := S (lastHandle h) in
    (id, mkWorld (vars w) (store w)
           (mkHost (clock h) (clockReads h) (frameRequests h ++ [id]) id)).

(** [cancelAnimationFrame(id)]: the callback will not run. *)
Definition cancelAnimationFrame (id : nat) : M unit :=
  modifyHost (fun h =>
    mkHost (clock h) (clockReads h)
      (filter (fun i => i ≠ id) (frameRequests h)) (lastHandle h)).

(** *** svelte/store *)

Definition writable (init : MercurialTimeState.t) : Writable :=
  mkWritable init [].

Definition set (st : MercurialTimeState.t) : M unit :=
  fun w => (tt, mkWorld (vars w)
                  (mkWritable st (published (store w) ++ [st])) (host w)).

(** What a subscriber receives when it subscribes, and so what svelte's
    [get(store)] and [$timeStore] read: the current value. *)
Definition get (w : World) : MercurialTimeState.t := value (store w).

(** *** The store *)

(** The body of [computeState], after its [Date.now()]. *)
Definition stateAt (v : Vars) (nowRealMs : float) : MercurialTimeState.t :=
  let displayMs :=
    computeMercurialTime (baseRealMs v) (baseDisplayMs v) nowRealMs (rate v) in
  MercurialTimeState.mk
    (JS.Date_new displayMs) (JS.Date_new nowRealMs) (rate v) (isRunning v).

Definition computeState : M MercurialTimeState.t :=
  nowRealMs ← Date_now;
  v ← getVars;
  mret (stateAt v nowRealMs).

Definition tick : M unit :=
  v ← getVars;
  if negb (isRunning v) then mret tt
  else
    st ← computeState;
    set st;;
    id ← requestAnimationFrame;
    assign_rafId (Some id).

Definition startLoop : M unit :=
  v ← getVars;
  match rafId v with
  | Some _ => mret tt
  | None => id ← requestAnimationFrame; assign_rafId (Some id)
  end.

Definition stopLoop : M unit :=
  v ← getVars;
  match rafId v with
  | Some id => cancelAnimationFrame id;; assign_rafId None
  | None => mret tt
  end.

Definition setRate (newRate : float) : M unit :=
  now ← Date_now;
  assign_baseRealMs now;;
  assign_baseDisplayMs now;;
  assign_rate newRate;;
  st ← computeState;
  set st.

Definition reset : M unit :=
  now ← Date_now;
  assign_baseRealMs now;;
  assign_baseDisplayMs now;;
  st ← computeState;
  set st.

Definition start : M unit :=
  v ← getVars;
  if isRunning v then mret tt
  else
    assign_isRunning true;;
    startLoop;;
    st ← computeState;
    set st.

Definition stop : M unit :=
  v ← getVars;
  if negb (isRunning v) then mret tt
  else
    assign_isRunning false;;
    stopLoop;;
    st ← computeState;
    set st.

Definition destroy : M unit := stopLoop.

(** [createMercurialTimeStore(initialRate)], on a host [h]. *)
Definition createMercurialTimeStore (initialRate : float) (h : Host) : World :=
  let (now, h1) := Date_now_host h in
  let v := mkVars now now initialRate true None in
  let (nowRealMs, h2) := Date_now_host h1 in
  exec startLoop (mkWorld v (writable (stateAt v nowRealMs)) h2).

(** The host presents a frame: the callbacks queued so far are taken off
    the list and run in order. *)
Definition animationFrame : M unit :=
  fun w =>
    let h := host w in
    let callbacks := frameRequests h in
    let w' := mkWorld (vars w) (store w)
                (mkHost (clock h) (clockReads h) [] (lastHandle h)) in
    (tt, foldl (fun w _ => exec tick w) w' callbacks).

(** What can happen to a store after its creation. *)
Inductive Event : Type :=
| CallSetRate (newRate : float)
| CallReset
| CallStart
| CallStop
| CallDestroy
| Frame.

Definition step (e : Event) (w : World) : World :=
  match e with
  | CallSetRate newRate => exec (setRate newRate) w
  | CallReset => exec reset w
  | CallStart => exec start w
  | CallStop => exec stop w
  | CallDestroy => exec destroy w
  | Frame => exec animationFrame w
  end.

Definition run (es : list Event) (w : World) : World := foldl (fun w e => step e w) w es.

Lemma run_nil (w : World) : run [] w = w.
Proof. reflexivity. Qed.

Lemma run_cons (e : Event) (es : list Event) (w : World) :
  run (e :: es) w = run es (step e w).
Proof. reflexivity. Qed.

Inductive reachable : World -> Prop :=
| reachable_create (initialRate : float) (h : Host) :
    frameRequests h = [] ->
    reachable (createMercurialTimeStore initialRate h)
| reachable_step (e : Event) (w : World) :
    reachable w -> reachable (step e w).

(** Whole numbers as [number]s. *)
Definition ofNat (k : nat) : float := of_uint63 (Uint63.of_Z (Z.of_nat k)).

(** Two hosts with nothing queued: on the first the clock stands at
    1000 ms, on the second every reading is one millisecond later than the
    reading before. *)
Definition steadyHost : Host := mkHost (fun _ => 1000) 0 [] 0.
Definition tickingHost : Host := mkHost (fun k => 1000 + ofNat k) 0 [] 0.

(** *** The operations as world transformers *)

Lemma create_world (initialRate : float) (h : Host) :
  createMercurialTimeStore initialRate h =
  let now := clock h (clockReads h) in
  let id := S (lastHandle h) in
  let v := mkVars now now initialRate true None in
  mkWorld (mkVars now now initialRate true (Some id))
    (writable (stateAt v (clock h (S (clockReads h)))))
    (mkHost (clock h) (S (S (clockReads h))) (frameRequests h ++ [id]) id).
Proof. reflexivity. Qed.

Lemma setRate_world (newRate : float) (v : Vars) (s : Writable) (h : Host) :
  step (CallSetRate newRate) (mkWorld v s h) =
  let now := clock h (clockReads h) in
  let v' := mkVars now now newRate (isRunning v) (rafId v) in
  let st := stateAt v' (clock h (S (clockReads h))) in
  mkWorld v' (mkWritable st (published s ++ [st]))
    (mkHost (clock h) (S (S (clockReads h))) (frameRequests h) (lastHandle h)).
Proof. reflexivity. Qed.

Lemma reset_world (v : Vars) (s : Writable) (h : Host) :
  step CallReset (mkWorld v s h) =
  let now := clock h (clockReads h) in
  let v' := mkVars now now (rate v) (isRunning v) (rafId v) in
  let st := stateAt v' (clock h (S (clockReads h))) in
  mkWorld v' (mkWritable st (published s ++ [st]))
    (mkHost (clock h) (S (S (clockReads h))) (frameRequests h) (lastHandle h)).
Proof. reflexivity. Qed.

Lemma start_running (w : World) :
  isRunning (vars w) = true -> step CallStart w = w.
Proof. destruct w as [[a b r run id] s h]. simpl. intros ->. reflexivity. Qed.

Lemma start_stopped (a b r : float) (s : Writable) (h : Host) :
  step CallStart (mkWorld (mkVars a b r false None) s h) =
  let id := S (lastHandle h) in
  let v' := mkVars a b r true (Some id) in
  let st := stateAt v' (clock h (clockReads h)) in
  mkWorld v' (mkWritable st (published s ++ [st]))
    (mkHost (clock h) (S (clockReads h)) (frameRequests h ++ [id]) id).
Proof. reflexivity. Qed.

Lemma stop_stopped (w : World) :
  isRunning (vars w) = false -> step CallStop w = w.
Proof. destruct w as [[a b r run id] s h]. simpl. intros ->. reflexivity. Qed.

Lemma stop_running (a b r : float) (id : option nat) (s : Writable) (h : Host) :
  step CallStop (mkWorld (mkVars a b r true id) s h) =
  let v' := mkVars a b r false None in
  let st := stateAt v' (clock h (clockReads h)) in
  mkWorld v' (mkWritable st (published s ++ [st]))
    (mkHost (clock h) (S (clockReads h))
       (match id with
        | Some i => filter (fun j => j ≠ i) (frameRequests h)
        | None => frameRequests h
        end) (lastHandle h)).
Proof. destruct id; reflexivity. Qed.

Lemma destroy_idle (w : World) :
  rafId (vars w) = None -> step CallDestroy w = w.
Proof. destruct w as [[a b r run id] s h]. simpl. intros ->. reflexivity. Qed.

Lemma destroy_looping (a b r : float) (run : bool) (i : nat)
    (s : Writable) (h : Host) :
  step CallDestroy (mkWorld (mkVars a b r run (Some i)) s h) =
  mkWorld (mkVars a b r run None) s
    (mkHost (clock h) (clockReads h)
       (filter (fun j => j ≠ i) (frameRequests h)) (lastHandle h)).
Proof. reflexivity. Qed.

Lemma frame_idle (w : World) :
  frameRequests (host w) = [] -> step Frame w = w.
Proof.
  destruct w as [v s [c k q l]]. simpl. intros ->. reflexivity.
Qed.

Lemma frame_tick (a b r : float) (id : option nat) (i : nat)
    (s : Writable) (c : nat -> float) (k l : nat) :
  step Frame (mkWorld (mkVars a b r true id) s (mkHost c k [i] l)) =
  let v' := mkVars a b r true (Some (S l)) in
  let st := stateAt (mkVars a b r true id) (c k) in
  mkWorld v' (mkWritable st (published s ++ [st]))
    (mkHost c (S k) [S l] (S l)).
Proof. reflexivity. Qed.

Lemma filter_out_only (i : nat) : filter (fun j => j ≠ i) [i] = [].
Proof.
  rewrite filter_cons. destruct (decide (i ≠ i)) as [H|_]; [|reflexivity].
  now contradiction H.
Qed.

(** *** What holds of every store

    The anchors coincide; the stored snapshot is the one computed from the
    present variables at the latest reading of the clock; a frame callback
    is queued exactly when [rafId] holds its handle, and then the store is
    running. *)

Record Inv (w : World) : Prop := mkInv {
  inv_anchors : baseRealMs (vars w) = baseDisplayMs (vars w);
  inv_reads : 1 <= clockReads (host w);
  inv_value :
    value (store w) =
    stateAt (vars w) (clock (host w) (pred (clockReads (host w))));
  inv_frames :
    frameRequests (host w) =
    match rafId (vars w) with Some id => [id] | None => [] end;
  inv_running : rafId (vars w) <> None -> isRunning (vars w) = true;
  inv_published :
    published (store w) = [] \/
    last (published (store w)) = Some (value (store w))
}.

Lemma Inv_create (initialRate : float) (h : Host) :
  frameRequests h = [] -> Inv (createMercurialTimeStore initialRate h).
Proof.
  intros Hq. rewrite create_world. destruct h as [c k q l]. simpl in *.
  subst q. split; simpl; auto with lia.
Qed.

Lemma Inv_step (e : Event) (w : World) : Inv w -> Inv (step e w).
Proof.
  destruct w as [[a b r run id] s [c k q l]].
  intros [Ha Hk Hv Hq Hr Hp]. simpl in *. subst b.
  destruct e as [newRate| | | | |].
  - rewrite setRate_world. split; simpl; auto using last_snoc with lia.
  - rewrite reset_world. split; simpl; auto using last_snoc with lia.
  - destruct run.
    + rewrite start_running by reflexivity. split; simpl; auto.
    + destruct id as [i|]; [specialize (Hr ltac:(discriminate)); discriminate|].
      subst q. rewrite start_stopped.
      split; simpl; auto using last_snoc with lia.
  - destruct run.
    + rewrite stop_running. subst q.
      split; simpl; auto using last_snoc with lia; try congruence.
      destruct id; [apply filter_out_only|reflexivity].
    + rewrite stop_stopped by reflexivity. split; simpl; auto.
  - destruct id as [i|].
    + rewrite destroy_looping. subst q. rewrite filter_out_only.
      split; simpl; auto; congruence.
    + rewrite destroy_idle by reflexivity. split; simpl; auto.
  - destruct id as [i|].
    + rewrite (Hr ltac:(discriminate)) in *. subst q. rewrite frame_tick.
      split; simpl; auto using last_snoc with lia.
    + rewrite frame_idle by assumption. split; simpl; auto.
Qed.

Lemma reachable_Inv (w : World) : reachable w -> Inv w.
Proof.
  induction 1 as [initialRate h Hq|e w _ IH].
  - now apply Inv_create.
  - now apply Inv_step.
Qed.

(** Two stores to evaluate on, both created with rate 1.5. *)
Definition steadyStore : World := createMercurialTimeStore 1.5 steadyHost.
Definition tickingStore : World := createMercurialTimeStore 1.5 tickingHost.

Lemma steadyStore_reachable : reachable steadyStore.
Proof. now apply reachable_create. Qed.

Lemma tickingStore_reachable : reachable tickingStore.
Proof. now apply reachable_create. Qed.

(** *** Reading the snapshot (C2) *)

(** C2 (as stated) fails: on the ticking host the first frame callback
    takes its snapshot at 1002 ms. A read before the second frame returns
    that snapshot, while a computation at the moment of the read would be
    against the next reading of the clock, 1003 ms. *)
Lemma read_is_not_fresh :
  reachable (step Frame tickingStore)
  /\ realTime (get (step Frame tickingStore)) = JS.Date_new 1002
  /\ realTime (fst (computeState (step Frame tickingStore))) = JS.Date_new 1003
  /\ get (step Frame tickingStore) <> fst (computeState (step Frame tickingStore)).
Proof.
  split; [apply reachable_step; exact tickingStore_reachable|].
  split; [reflexivity|]. split; [reflexivity|].
  intros H.
  apply (f_equal (fun st => JS.getTime (realTime st) =? 1002)) in H.
  vm_compute in H. discriminate H.
Qed.

(** C2 (as amended). A read returns the stored snapshot: the one computed
    from the present anchors, rate and running flag against the latest
    reading the store took of the clock (at creation, in a frame callback or
    in a mutation), which is also the latest snapshot published, if any. *)
Theorem read_is_latest_publication (w : World) :
  reachable w ->
  1 <= clockReads (host w)
  /\ get w = stateAt (vars w) (clock (host w) (pred (clockReads (host w))))
  /\ (published (store w) = [] \/ last (published (store w)) = Some (get w)).
Proof.
  intros Hw. destruct (reachable_Inv w Hw) as [_ Hk Hv _ _ Hp]. auto.
Qed.

Lemma read_is_latest_publication_witness :
  reachable tickingStore
  /\ 1 <= clockReads (host tickingStore)
  /\ get tickingStore =
     stateAt (vars tickingStore)
       (clock (host tickingStore) (pred (clockReads (host tickingStore))))
  /\ (published (store tickingStore) = [] \/
      last (published (store tickingStore)) = Some (get tickingStore)).
Proof.
  split; [exact tickingStore_reachable|].
  exact (read_is_latest_publication tickingStore tickingStore_reachable).
Defined.

(** *** destroy (C3) *)

(** Events that call nothing but [destroy], or present a frame. *)
Definition frameOrDestroy (e : Event) : bool :=
  match e with Frame | CallDestroy => true | _ => false end.

(** C3 (as stated) fails: [setRate] after [destroy] publishes a snapshot. *)
Lemma destroy_then_setRate_publishes :
  reachable tickingStore
  /\ published (store (step CallDestroy tickingStore)) = []
  /\ length (published (store
       (run [CallSetRate 2] (step CallDestroy tickingStore)))) = 1%nat.
Proof. split; [exact tickingStore_reachable|]. split; reflexivity. Qed.

Lemma destroyed_quiet (w : World) (es : list Event) :
  Inv w -> rafId (vars w) = None -> forallb frameOrDestroy es = true ->
  run es w = w.
Proof.
  intros Hw Hid. induction es as [|e es IH]; [reflexivity|].
  intros [He Hes]%andb_prop.
  assert (Hstep : step e w = w).
  { destruct e; try discriminate.
    - now apply destroy_idle.
    - apply frame_idle. rewrite (inv_frames w Hw), Hid. reflexivity. }
  rewrite run_cons, Hstep. now apply IH.
Qed.

(** C3 (as amended). [destroy] cancels the frame loop: afterwards [rafId]
    is null and no callback is queued, so frames and further [destroy] calls
    change nothing and publish nothing (a second [destroy] is a no-op).
    [destroy] is not absorbing: [setRate] and [reset] still publish one
    snapshot each, and [stop] then [start] queue a frame callback again. *)
Theorem destroy_cancels_loop (w : World) (es : list Event) :
  reachable w -> forallb frameOrDestroy es = true ->
  rafId (vars (step CallDestroy w)) = None
  /\ frameRequests (host (step CallDestroy w)) = []
  /\ step CallDestroy (step CallDestroy w) = step CallDestroy w
  /\ run es (step CallDestroy w) = step CallDestroy w
  /\ (forall newRate,
        length (published (store (step (CallSetRate newRate) (step CallDestroy w))))
        = S (length (published (store (step CallDestroy w)))))
  /\ length (published (store (step CallReset (step CallDestroy w))))
     = S (length (published (store (step CallDestroy w))))
  /\ frameRequests (host (run [CallStop; CallStart] (step CallDestroy w))) <> [].
Proof.
  intros Hw Hes.
  pose proof (Inv_step CallDestroy w (reachable_Inv w Hw)) as Hd.
  assert (Hid : rafId (vars (step CallDestroy w)) = None).
  { destruct w as [[a b r on [i|]] s h]; reflexivity. }
  split; [exact Hid|].
  split; [rewrite (inv_frames _ Hd), Hid; reflexivity|].
  split; [now apply destroy_idle|].
  split; [now apply destroyed_quiet|].
  split; [|split].
  - intros newRate. destruct (step CallDestroy w) as [v s h].
    rewrite setRate_world. simpl. rewrite length_app. simpl. lia.
  - destruct (step CallDestroy w) as [v s h].
    rewrite reset_world. simpl. rewrite length_app. simpl. lia.
  - rewrite !run_cons, run_nil.
    destruct (step CallDestroy w) as [[a b r on id] s h]. simpl in Hid. subst id.
    destruct on.
    + rewrite stop_running, start_stopped. simpl.
      intros Hnil. apply app_eq_nil in Hnil as [_ Hnil]. discriminate.
    + rewrite stop_stopped, start_stopped by reflexivity. simpl.
      intros Hnil. apply app_eq_nil in Hnil as [_ Hnil]. discriminate.
Qed.

Lemma destroy_cancels_loop_witness :
  reachable tickingStore
  /\ run [Frame; CallDestroy; Frame] (step CallDestroy tickingStore)
     = step CallDestroy tickingStore.
Proof.
  split; [exact tickingStore_reachable|].
  exact (proj1 (proj2 (proj2 (proj2
    (destroy_cancels_loop tickingStore [Frame; CallDestroy; Frame]
       tickingStore_reachable eq_refl))))).
Defined.

(** *** setRate (C4) *)

(** C4 (as stated) fails: [setRate] reads the clock for the anchors, and
    [computeState] reads it again for the snapshot. On the ticking host the
    anchors are set at 1002 ms and the snapshot is taken at 1003 ms: with
    rate 2 it displays 1004 ms. *)
Lemma setRate_between_clock_ticks :
  is_finite 2 = true
  /\ baseRealMs (vars (step (CallSetRate 2) tickingStore)) = 1002
  /\ baseDisplayMs (vars (step (CallSetRate 2) tickingStore)) = 1002
  /\ displayTime (get (step (CallSetRate 2) tickingStore)) = JS.Date_new 1004
  /\ realTime (get (step (CallSetRate 2) tickingStore)) = JS.Date_new 1003
  /\ (JS.getTime (displayTime (get (step (CallSetRate 2) tickingStore)))
      =? JS.getTime (realTime (get (step (CallSetRate 2) tickingStore))))
     = false.
Proof. repeat split; reflexivity. Qed.

(** C4 (as amended). After [setRate(r)], in any state: both anchors are the
    instant [setRate] read, the snapshot has [rate = r], and it is computed
    against the next reading of the clock. When [r] is finite and that
    reading is the same instant, [displayTime] is [realTime]. *)
Theorem setRate_snapshot (w : World) (newRate : float) :
  let now := clock (host w) (clockReads (host w)) in
  let nowRealMs := clock (host w) (S (clockReads (host w))) in
  let w' := step (CallSetRate newRate) w in
  baseRealMs (vars w') = now
  /\ baseDisplayMs (vars w') = now
  /\ MercurialTimeState.rate (get w') = newRate
  /\ realTime (get w') = JS.Date_new nowRealMs
  /\ displayTime (get w') =
     JS.Date_new (computeMercurialTime now now nowRealMs newRate)
  /\ (is_finite newRate = true -> nowRealMs = now ->
      displayTime (get w') = realTime (get w')).
Proof.
  destruct w as [v s h]. cbv zeta. rewrite setRate_world.
  repeat (split; [reflexivity|]). simpl.
  intros Hr ->. now apply Date_new_zero_elapsed.
Qed.

Lemma setRate_snapshot_witness :
  is_finite 2 = true
  /\ clock (host steadyStore) (S (clockReads (host steadyStore)))
     = clock (host steadyStore) (clockReads (host steadyStore))
  /\ displayTime (get (step (CallSetRate 2) steadyStore))
     = realTime (get (step (CallSetRate 2) steadyStore)).
Proof.
  split; [reflexivity|]. split; [reflexivity|].
  exact (proj2 (proj2 (proj2 (proj2 (proj2
    (setRate_snapshot steadyStore 2))))) eq_refl eq_refl).
Defined.

(** *** stop and start (C5, C6) *)

(** Events other than a call of [start]. *)
Definition untilStart (e : Event) : bool :=
  match e with CallStart => false | _ => true end.

(** Events that neither start the store nor set its anchors: frames and
    further calls of [stop] and [destroy]. *)
Definition keepsSnapshot (e : Event) : bool :=
  match e with Frame | CallStop | CallDestroy => true | _ => false end.

Lemma stopped_idle (w : World) :
  Inv w -> isRunning (vars w) = false ->
  rafId (vars w) = None /\ frameRequests (host w) = [].
Proof.
  intros Hw Hoff.
  assert (Hid : rafId (vars w) = None).
  { destruct (rafId (vars w)) eqn:E; [|reflexivity].
    rewrite (inv_running w Hw) in Hoff by congruence. discriminate. }
  split; [exact Hid|]. rewrite (inv_frames w Hw), Hid. reflexivity.
Qed.

Lemma stopped_frozen (w : World) (es : list Event) :
  Inv w -> isRunning (vars w) = false -> forallb keepsSnapshot es = true ->
  run es w = w.
Proof.
  intros Hw Hoff. destruct (stopped_idle w Hw Hoff) as [Hid Hq].
  induction es as [|e es IH]; [reflexivity|].
  intros [He Hes]%andb_prop.
  assert (Hstep : step e w = w).
  { destruct e; try discriminate.
    - now apply stop_stopped.
    - now apply destroy_idle.
    - now apply frame_idle. }
  rewrite run_cons, Hstep. now apply IH.
Qed.

Lemma stopped_stays (es : list Event) (w : World) :
  Inv w -> isRunning (vars w) = false -> forallb untilStart es = true ->
  Inv (run es w) /\ isRunning (vars (run es w)) = false.
Proof.
  revert w. induction es as [|e es IH]; intros w Hw Hoff; [now split|].
  intros [He Hes]%andb_prop. rewrite run_cons.
  apply IH; [now apply Inv_step| |exact Hes].
  destruct (stopped_idle w Hw Hoff) as [Hid Hq].
  destruct e; try discriminate.
  - destruct w as [v s h]. rewrite setRate_world. exact Hoff.
  - destruct w as [v s h]. rewrite reset_world. exact Hoff.
  - now rewrite stop_stopped.
  - now rewrite destroy_idle.
  - now rewrite frame_idle.
Qed.

(** C5 (as stated) fails: [reset] on a stopped store publishes a snapshot
    with another [displayTime]. On the ticking host, [stop] leaves 1003 ms on
    display and the [reset] after it 1004 ms, the store still stopped. *)
Lemma stop_then_reset_moves_display :
  reachable tickingStore
  /\ isRunning (vars tickingStore) = true
  /\ displayTime (get (step CallStop tickingStore)) = JS.Date_new 1003
  /\ displayTime (get (run [CallReset] (step CallStop tickingStore)))
     = JS.Date_new 1004
  /\ MercurialTimeState.isRunning
       (get (run [CallReset] (step CallStop tickingStore))) = false
  /\ (JS.getTime (displayTime (get (run [CallReset] (step CallStop tickingStore))))
      =? JS.getTime (displayTime (get (step CallStop tickingStore)))) = false.
Proof. split; [exact tickingStore_reachable|]. repeat split; reflexivity. Qed.

(** C5 (as amended). After [stop] on a running store, the snapshot that
    [stop] published is what every read returns until [start], [setRate]
    or [reset] is called, whatever the clock shows and however many frames
    pass; and until [start] is called every snapshot has
    [isRunning = false]. *)
Theorem stop_freezes (w : World) (es : list Event) :
  reachable w -> isRunning (vars w) = true ->
  last (published (store (step CallStop w))) = Some (get (step CallStop w))
  /\ MercurialTimeState.isRunning (get (step CallStop w)) = false
  /\ (forallb keepsSnapshot es = true ->
      get (run es (step CallStop w)) = get (step CallStop w))
  /\ (forallb untilStart es = true ->
      MercurialTimeState.isRunning (get (run es (step CallStop w))) = false).
Proof.
  intros Hw Hon.
  pose proof (Inv_step CallStop w (reachable_Inv w Hw)) as Hs.
  assert (Hoff : isRunning (vars (step CallStop w)) = false).
  { destruct w as [[a b r on id] s h]. simpl in Hon. subst on.
    rewrite stop_running. reflexivity. }
  split; [|split; [|split]].
  - destruct w as [[a b r on id] s h]. simpl in Hon. subst on.
    rewrite stop_running. simpl. apply last_snoc.
  - unfold get. rewrite (inv_value _ Hs). exact Hoff.
  - intros Hes. now rewrite stopped_frozen.
  - intros Hes. destruct (stopped_stays es _ Hs Hoff Hes) as [Hi Hr].
    unfold get. rewrite (inv_value _ Hi). exact Hr.
Qed.

Lemma stop_freezes_witness :
  reachable tickingStore
  /\ isRunning (vars tickingStore) = true
  /\ get (run [Frame; Frame; CallStop; Frame] (step CallStop tickingStore))
     = get (step CallStop tickingStore)
  /\ MercurialTimeState.isRunning
       (get (run [Frame; CallSetRate 2; CallReset] (step CallStop tickingStore)))
     = false.
Proof.
  split; [exact tickingStore_reachable|]. split; [reflexivity|]. split.
  - exact (proj1 (proj2 (proj2
      (stop_freezes tickingStore [Frame; Frame; CallStop; Frame]
         tickingStore_reachable eq_refl))) eq_refl).
  - exact (proj2 (proj2 (proj2
      (stop_freezes tickingStore [Frame; CallSetRate 2; CallReset]
         tickingStore_reachable eq_refl))) eq_refl).
Defined.

(** A host on which a store created at 0 ms is stopped at 1000 ms and
    started again at 4000 ms. *)
Definition pausedHost : Host :=
  mkHost (fun k => match k with 0 | 1 => 0 | 2 => 1000 | _ => 4000 end) 0 [] 0.

Definition pausedStore : World := createMercurialTimeStore 2 pausedHost.

Lemma pausedStore_reachable : reachable pausedStore.
Proof. now apply reachable_create. Qed.

(** At rate 2 the display is 2000 ms ahead after 1000 ms. *)
Example rate_2_doubles_elapsed :
  displayTime (get pausedStore) = JS.Date_new 0
  /\ displayTime (get (step Frame pausedStore)) = JS.Date_new 2000
  /\ realTime (get (step Frame pausedStore)) = JS.Date_new 1000.
Proof. repeat split; reflexivity. Qed.

(** Stopped for 3000 ms at rate 2, the display jumps by 6000 ms. *)
Example pause_of_3000_ms :
  displayTime (get (step CallStop pausedStore)) = JS.Date_new 2000
  /\ displayTime (get (run [CallStop; Frame; Frame; CallStart] pausedStore))
     = JS.Date_new 8000.
Proof. split; reflexivity. Qed.

(** C6. [stop] leaves the anchors and the rate as they are, and so does
    the time spent stopped: the snapshot that [start] publishes is computed
    from the anchors and the rate the store had before [stop], against the
    clock at [start]. Its [displayTime] is the anchor plus [rate] times the
    real time elapsed since the anchor, the time spent stopped included. *)
Theorem stop_start_jump (w : World) (es : list Event) :
  reachable w -> isRunning (vars w) = true ->
  forallb keepsSnapshot es = true ->
  let stopped := step CallStop w in
  let started := step CallStart (run es stopped) in
  let atStop := clock (host w) (clockReads (host w)) in
  let atStart := clock (host w) (S (clockReads (host w))) in
  baseRealMs (vars stopped) = baseRealMs (vars w)
  /\ baseDisplayMs (vars stopped) = baseDisplayMs (vars w)
  /\ rate (vars stopped) = rate (vars w)
  /\ displayTime (get stopped) =
     JS.Date_new (baseDisplayMs (vars w) + (atStop - baseRealMs (vars w)) * rate (vars w))
  /\ get started =
     MercurialTimeState.mk
       (JS.Date_new
          (baseDisplayMs (vars w) + (atStart - baseRealMs (vars w)) * rate (vars w)))
       (JS.Date_new atStart) (rate (vars w)) true
  /\ last (published (store started)) = Some (get started).
Proof.
  intros Hw Hon Hes. cbv zeta.
  pose proof (Inv_step CallStop w (reachable_Inv w Hw)) as Hs.
  rewrite stopped_frozen; [|exact Hs| |exact Hes].
  - destruct w as [[a b r on id] s h]. simpl in Hon. subst on.
    rewrite stop_running. cbv zeta. rewrite start_stopped.
    repeat split; try reflexivity. simpl. apply last_snoc.
  - destruct w as [[a b r on id] s h]. simpl in Hon. subst on.
    rewrite stop_running. reflexivity.
Qed.

Lemma stop_start_jump_witness :
  reachable pausedStore
  /\ isRunning (vars pausedStore) = true
  /\ get (step CallStart (run [Frame; Frame] (step CallStop pausedStore)))
     = MercurialTimeState.mk (JS.Date_new (0 + (4000 - 0) * 2))
         (JS.Date_new 4000) 2 true.
Proof.
  split; [exact pausedStore_reachable|]. split; [reflexivity|].
  exact (proj1 (proj2 (proj2 (proj2 (proj2
    (stop_start_jump pausedStore [Frame; Frame]
       pausedStore_reachable eq_refl eq_refl)))))).
Defined.

(** *** The anchors (C10) *)

(** Events that are not a call of [setRate] or [reset]. *)
Definition keepsAnchors (e : Event) : bool :=
  match e with CallSetRate _ | CallReset => false | _ => true end.

Lemma tick_keeps_anchors (w : World) :
  baseRealMs (vars (exec tick w)) = baseRealMs (vars w)
  /\ baseDisplayMs (vars (exec tick w)) = baseDisplayMs (vars w).
Proof. destruct w as [[a b r [|] id] s h]; split; reflexivity. Qed.

Lemma ticks_keep_anchors (callbacks : list nat) (w : World) :
  baseRealMs (vars (foldl (fun w _ => exec tick w) w callbacks))
    = baseRealMs (vars w)
  /\ baseDisplayMs (vars (foldl (fun w _ => exec tick w) w callbacks))
     = baseDisplayMs (vars w).
Proof.
  revert w. induction callbacks as [|i callbacks IH]; intros w; [now split|].
  simpl. destruct (IH (exec tick w)) as [-> ->]. apply tick_keeps_anchors.
Qed.

Lemma step_keeps_anchors (e : Event) (w : World) :
  keepsAnchors e = true ->
  baseRealMs (vars (step e w)) = baseRealMs (vars w)
  /\ baseDisplayMs (vars (step e w)) = baseDisplayMs (vars w).
Proof.
  destruct e; try discriminate; intros _.
  - destruct w as [[a b r [|] [i|]] s h]; split; reflexivity.
  - destruct w as [[a b r [|] [i|]] s h]; split; reflexivity.
  - destruct w as [[a b r on [i|]] s h]; split; reflexivity.
  - destruct w as [v s h].
    exact (ticks_keep_anchors (frameRequests h)
             (mkWorld v s (mkHost (clock h) (clockReads h) [] (lastHandle h)))).
Qed.

(** C10 (as stated) fails in its consequence: a [Date] holds whole
    milliseconds. The store created at 1000 ms with rate 1.5 and observed at
    1001 ms displays 1001 ms (1001.5 truncated), while
    [realTime + (rate - 1) * (realTime - baseRealMs)] is 1001.5. *)
Lemma snapshot_equation_fails :
  reachable tickingStore
  /\ baseRealMs (vars tickingStore) = 1000
  /\ JS.getTime (displayTime (get tickingStore)) = 1001
  /\ JS.getTime (realTime (get tickingStore))
     + (MercurialTimeState.rate (get tickingStore) - 1)
       * (JS.getTime (realTime (get tickingStore)) - baseRealMs (vars tickingStore))
     = 1001.5
  /\ (JS.getTime (displayTime (get tickingStore))
      =? JS.getTime (realTime (get tickingStore))
         + (MercurialTimeState.rate (get tickingStore) - 1)
           * (JS.getTime (realTime (get tickingStore))
              - baseRealMs (vars tickingStore))) = false.
Proof. split; [exact tickingStore_reachable|]. repeat split; reflexivity. Qed.

(** C10 (as amended). The two anchors of a store are always equal: they
    are at creation, [setRate] and [reset] set both to the instant they read,
    and [start], [stop], [destroy] and the frames leave them as they are. So
    every snapshot read is, for [t] the reading of the clock it was taken at,
    [realTime = new Date(t)] and
    [displayTime = new Date(baseRealMs + (t - baseRealMs) * rate)],
    where [new Date] keeps whole milliseconds. *)
Theorem anchors_coincide (w : World) :
  reachable w ->
  baseRealMs (vars w) = baseDisplayMs (vars w)
  /\ (forall e, keepsAnchors e = true ->
        baseRealMs (vars (step e w)) = baseRealMs (vars w)
        /\ baseDisplayMs (vars (step e w)) = baseDisplayMs (vars w))
  /\ (forall newRate,
        baseRealMs (vars (step (CallSetRate newRate) w))
          = clock (host w) (clockReads (host w))
        /\ baseDisplayMs (vars (step (CallSetRate newRate) w))
           = clock (host w) (clockReads (host w)))
  /\ (baseRealMs (vars (step CallReset w)) = clock (host w) (clockReads (host w))
      /\ baseDisplayMs (vars (step CallReset w))
         = clock (host w) (clockReads (host w)))
  /\ exists t : float,
       realTime (get w) = JS.Date_new t
       /\ displayTime (get w) =
          JS.Date_new (baseRealMs (vars w)
                       + (t - baseRealMs (vars w)) * MercurialTimeState.rate (get w)).
Proof.
  intros Hw. destruct (reachable_Inv w Hw) as [Ha _ Hv _ _ _].
  split; [exact Ha|].
  split; [intros e He; now apply step_keeps_anchors|].
  split; [intros newRate; destruct w; split; reflexivity|].
  split; [destruct w; split; reflexivity|].
  exists (clock (host w) (pred (clockReads (host w)))).
  unfold get. rewrite Hv. unfold stateAt. simpl. rewrite <- Ha.
  split; reflexivity.
Qed.

Lemma anchors_coincide_witness :
  reachable (run [Frame; CallSetRate 2; CallStop; CallReset; CallStart] tickingStore)
  /\ baseRealMs (vars (run [Frame; CallSetRate 2; CallStop; CallReset; CallStart]
                         tickingStore))
     = baseDisplayMs (vars (run [Frame; CallSetRate 2; CallStop; CallReset; CallStart]
                              tickingStore)).
Proof.
  assert (H : reachable
    (run [Frame; CallSetRate 2; CallStop; CallReset; CallStart] tickingStore)).
  { repeat apply reachable_step. exact tickingStore_reachable. }
  split; [exact H|].
  exact (proj1 (anchors_coincide _ H)).
Defined.

End MercurialTime.

(** ** src/lib/core/types.ts: Settings *)

Module Settings.

(** At run time [theme] and [colorMode] are strings; the type narrows them
    to ['classic'] and to ['system' | 'light' | 'dark']. *)
Record t : Type := mk {
  rate : float;
  showSecondHand : bool;
  showNumbers : bool;
  showDigitalTime : bool;
  theme : string;
  colorMode : string
}.

End Settings.

Definition DEFAULT_SETTINGS : Settings.t :=
  Settings.mk 1.1 false true false "classic" "system".

Definition RATE_MIN : float := 0.1.
Definition RATE_MAX : float := 10.0.

(** ** src/lib/utils/storage.ts *)

Module Storage.

(** A value of type [unknown]. An array is an object whose properties are
    its indices and [length]; [props] are the properties a lookup finds. *)
#[warnings="-register-all"]
Inductive JSValue : Type :=
| JSUndefined
| JSNull
| JSBoolean (b : bool)
| JSNumber (n : float)
| JSString (s : string)
| JSFunction
| JSObject (props : gmap string JSValue).

Definition typeof (v : JSValue) : string :=
  match v with
  | JSUndefined => "undefined"
  | JSNull => "object"
  | JSBoolean _ => "boolean"
  | JSNumber _ => "number"
  | JSString _ => "string"
  | JSFunction => "function"
  | JSObject _ => "object"
  end.

(** [raw as Record<string, unknown>], and [input.key]. *)
Definition asRecord (raw : JSValue) : gmap string JSValue :=
  match raw with JSObject props => props | _ => ∅ end.

Definition prop (input : gmap string JSValue) (key : string) : JSValue :=
  default JSUndefined (input !! key).

(** [list.includes(v)] on a list of strings. *)
Definition includes (valid : list string) (v : JSValue) : bool :=
  match v with
  | JSString s => bool_decide (s ∈ valid)
  | _ => false
  end.

(** [v as 'classic'], for a [v] that [includes] has found among strings. *)
Definition asString (v : JSValue) : string :=
  match v with JSString s => s | _ => "" end.

(** A completion: a value, or an exception thrown. *)
Inductive Completion (A : Type) : Type :=
| Normal (a : A)
| Throw (error : string).

Arguments Normal {A} a.
Arguments Throw {A} error.

#[export] Instance Completion_ret : MRet Completion := fun A a => Normal a.
#[export] Instance Completion_bind : MBind Completion :=
  fun A B (f : A -> Completion B) (m : Completion A) =>
    match m with
    | Normal a => f a
    | Throw error => Throw error
    end.

(** [try { body } catch { handler }] *)
Definition try_catch {A : Type} (body : Completion A) (handler : Completion A)
    : Completion A :=
  match body with
  | Normal a => Normal a
  | Throw _ => handler
  end.

(** The browser's [localStorage], as the tests mock it: a dictionary of
    strings, whose [getItem] may throw (access denied) and whose [setItem]
    may throw (quota exceeded). *)
Record LocalStorage : Type := mkLocalStorage {
  items : gmap string string;
  getItemThrows : bool;
  setItemThrows : bool
}.

Definition getItem (ls : LocalStorage) (key : string)
    : Completion (option string) :=
  if getItemThrows ls then Throw "localStorage access denied"
  else Normal (items ls !! key).

Definition setItem (ls : LocalStorage) (key value : string)
    : Completion LocalStorage :=
  if setItemThrows ls then Throw "localStorage quota exceeded"
  else Normal (mkLocalStorage (<[key := value]> (items ls))
                 (getItemThrows ls) (setItemThrows ls)).

Definition STORAGE_KEY : string := "mercurial-clock-settings".

Definition VALID_COLOR_MODES : list string := ["system"; "light"; "dark"].

Definition VALID_THEMES : list string := ["classic"].

Definition clamp (value min max : float) : float :=
  JS.Math_min (JS.Math_max value min) max.

(** The object a [Settings] is. *)
Definition settingsObject (s : Settings.t) : JSValue :=
  JSObject (list_to_map [
    ("rate", JSNumber (Settings.rate s));
    ("showSecondHand", JSBoolean (Settings.showSecondHand s));
    ("showNumbers", JSBoolean (Settings.showNumbers s));
    ("showDigitalTime", JSBoolean (Settings.showDigitalTime s));
    ("theme", JSString (Settings.theme s));
    ("colorMode", JSString (Settings.colorMode s))]).

(** What the type [Settings] promises. *)
Definition wellFormed (s : Settings.t) : bool :=
  (RATE_MIN <=? Settings.rate s) && (Settings.rate s <=? RATE_MAX)
  && bool_decide (Settings.theme s ∈ VALID_THEMES)
  && bool_decide (Settings.colorMode s ∈ VALID_COLOR_MODES).

(** *** clamp on the range of rates *)

Lemma clamp_rate (n : float) :
  is_nan n = false ->
  clamp n RATE_MIN RATE_MAX =
  if n <? RATE_MIN then RATE_MIN else if RATE_MAX <? n then RATE_MAX else n.
Proof.
  intros Hn. unfold clamp.
  rewrite (JS.Math_max_nonzero n RATE_MIN Hn eq_refl eq_refl).
  destruct (n <? RATE_MIN) eqn:Hlow; [reflexivity|].
  now rewrite (JS.Math_min_nonzero n RATE_MAX Hn eq_refl eq_refl).
Qed.

Lemma clamp_range (n : float) :
  is_nan n = false ->
  (RATE_MIN <=? clamp n RATE_MIN RATE_MAX) = true
  /\ (clamp n RATE_MIN RATE_MAX <=? RATE_MAX) = true.
Proof.
  intros Hn. rewrite (clamp_rate n Hn).
  destruct (n <? RATE_MIN) eqn:Hlow; [split; reflexivity|].
  destruct (RATE_MAX <? n) eqn:Hhigh; [split; reflexivity|]. split.
  - now apply Binary64.ltb_false_leb.
  - now apply Binary64.ltb_false_leb.
Qed.

Lemma clamp_inside (n : float) :
  (RATE_MIN <=? n) = true -> (n <=? RATE_MAX) = true ->
  clamp n RATE_MIN RATE_MAX = n.
Proof.
  intros Hlow Hhigh.
  destruct (Binary64.leb_not_nan _ _ Hlow) as [_ Hn].
  rewrite (clamp_rate n Hn).
  rewrite (Binary64.leb_ltb_false _ _ Hlow), (Binary64.leb_ltb_false _ _ Hhigh).
  reflexivity.
Qed.

(** A number above [RATE_MAX] is not below [RATE_MIN]. *)
Lemma above_max_not_below_min (n : float) :
  (RATE_MAX <? n) = true -> (n <? RATE_MIN) = false.
Proof.
  rewrite !FloatAxioms.ltb_spec. unfold SFltb.
  change (Prim2SF RATE_MAX) with (S754_finite false 5629499534213120 (-49)).
  change (Prim2SF RATE_MIN) with (S754_finite false 7205759403792794 (-56)).
  destruct (Prim2SF n) as [s| s| |s m e]; cbv beta iota delta [SFcompare];
    try discriminate.
  - now destruct s.
  - destruct s; [discriminate|].
    destruct (Z.compare_spec (-49) e) as [He|He|He]; try discriminate;
      destruct (Z.compare_spec e (-56)) as [He'|He'|He']; try lia; reflexivity.
Qed.

Lemma ltb_not_nan (x y : float) :
  (x <? y) = true -> is_nan x = false /\ is_nan y = false.
Proof. intros H. apply Binary64.leb_not_nan. now apply Binary64.ltb_leb. Qed.

(** The names [normalizeSettings] reads. *)
Definition knownKeys : list string :=
  ["rate"; "showSecondHand"; "showNumbers"; "showDigitalTime"; "theme";
   "colorMode"].

Section WithHost.

(** The built-ins [parseFloat], [JSON.parse] and [JSON.stringify]. *)
Context (parseFloat : string -> float).
Context (JSON_parse : string -> Completion JSValue).
Context (JSON_stringify : JSValue -> Completion string).

Set Default Proof Using "Type".

Definition normalizeSettings (raw : JSValue) : Settings.t :=
  match raw with
  | JSNull | JSUndefined => DEFAULT_SETTINGS
  | _ =>
    if negb (String.eqb (typeof raw) "object") then DEFAULT_SETTINGS
    else
      let input := asRecord raw in
      let rate :=
        match prop input "rate" with
        | JSUndefined => Settings.rate DEFAULT_SETTINGS
        | inputRate =>
          let parsed :=
            match inputRate with
            | JSString text => JSNumber (parseFloat text)
            | _ => inputRate
            end in
          match parsed with
          | JSNumber n =>
              if negb (is_nan n) then clamp n RATE_MIN RATE_MAX
              else Settings.rate DEFAULT_SETTINGS
          | _ => Settings.rate DEFAULT_SETTINGS
          end
        end in
      let showSecondHand :=
        match prop input "showSecondHand" with
        | JSBoolean b => b
        | _ => Settings.showSecondHand DEFAULT_SETTINGS
        end in
      let showNumbers :=
        match prop input "showNumbers" with
        | JSBoolean b => b
        | _ => Settings.showNumbers DEFAULT_SETTINGS
        end in
      let showDigitalTime :=
        match prop input "showDigitalTime" with
        | JSBoolean b => b
        | _ => Settings.showDigitalTime DEFAULT_SETTINGS
        end in
      let theme :=
        if includes VALID_THEMES (prop input "theme")
        then asString (prop input "theme")
        else Settings.theme DEFAULT_SETTINGS in
      let colorMode :=
        if includes VALID_COLOR_MODES (prop input "colorMode")
        then asString (prop input "colorMode")
        else Settings.colorMode DEFAULT_SETTINGS in
      Settings.mk rate showSecondHand showNumbers showDigitalTime theme colorMode
  end.

(** [!stored] for [stored : string | null]. *)
Definition falsy (stored : option string) : bool :=
  match stored with
  | None => true
  | Some text => String.eqb text ""
  end.

Definition loadFromStorage (ls : LocalStorage) : Completion Settings.t :=
  try_catch
    (stored ← getItem ls STORAGE_KEY;
     if falsy stored then mret DEFAULT_SETTINGS
     else
       parsed ← JSON_parse (default "" stored);
       mret (normalizeSettings parsed))
    (mret DEFAULT_SETTINGS).

(** The storage after the call, or the exception the call throws. *)
Definition saveToStorage (settings : Settings.t) (ls : LocalStorage)
    : Completion LocalStorage :=
  try_catch
    (text ← JSON_stringify (settingsObject settings);
     setItem ls STORAGE_KEY text)
    (mret ls).

(** *** normalizeSettings, field by field *)

(** The fields of the result for an object, as functions of the property
    read. *)
Definition rateOf (inputRate : JSValue) : float :=
  match inputRate with
  | JSNumber n => if is_nan n then Settings.rate DEFAULT_SETTINGS
                  else clamp n RATE_MIN RATE_MAX
  | JSString text =>
      if is_nan (parseFloat text) then Settings.rate DEFAULT_SETTINGS
      else clamp (parseFloat text) RATE_MIN RATE_MAX
  | _ => Settings.rate DEFAULT_SETTINGS
  end.

Definition flagOf (dflt : bool) (v : JSValue) : bool :=
  match v with JSBoolean b => b | _ => dflt end.

Definition choiceOf (valid : list string) (dflt : string) (v : JSValue) : string :=
  match v with
  | JSString s => if bool_decide (s ∈ valid) then s else dflt
  | _ => dflt
  end.

Lemma normalizeSettings_object (input : gmap string JSValue) :
  normalizeSettings (JSObject input) =
  Settings.mk
    (rateOf (prop input "rate"))
    (flagOf false (prop input "showSecondHand"))
    (flagOf true (prop input "showNumbers"))
    (flagOf false (prop input "showDigitalTime"))
    (choiceOf VALID_THEMES "classic" (prop input "theme"))
    (choiceOf VALID_COLOR_MODES "system" (prop input "colorMode")).
Proof.
  unfold normalizeSettings. simpl. f_equal.
  - destruct (prop input "rate") as [| | |n|text| |]; simpl; try reflexivity.
    + now destruct (is_nan n).
    + now destruct (is_nan (parseFloat text)).
  - destruct (prop input "theme"); reflexivity.
  - destruct (prop input "colorMode"); reflexivity.
Qed.

Lemma normalizeSettings_not_object (raw : JSValue) :
  (forall input, raw <> JSObject input) ->
  normalizeSettings raw = DEFAULT_SETTINGS.
Proof.
  intros H. destruct raw; try reflexivity. now contradiction (H props).
Qed.

Lemma rateOf_range (v : JSValue) :
  (RATE_MIN <=? rateOf v) = true /\ (rateOf v <=? RATE_MAX) = true.
Proof.
  destruct v as [| | |n|text| |]; simpl; try (split; reflexivity).
  - destruct (is_nan n) eqn:Hn; [split; reflexivity|]. now apply clamp_range.
  - destruct (is_nan (parseFloat text)) eqn:Hn; [split; reflexivity|].
    now apply clamp_range.
Qed.

Lemma choiceOf_valid (valid : list string) (dflt : string) (v : JSValue) :
  dflt ∈ valid -> choiceOf valid dflt v ∈ valid.
Proof.
  intros Hd. destruct v; simpl; try exact Hd.
  destruct (bool_decide (s ∈ valid)) eqn:Hs; [|exact Hd].
  now apply bool_decide_eq_true in Hs.
Qed.

Lemma normalizeSettings_wellFormed (raw : JSValue) :
  wellFormed (normalizeSettings raw) = true.
Proof.
  destruct raw; try reflexivity.
  rewrite normalizeSettings_object. unfold wellFormed. simpl.
  destruct (rateOf_range (prop props "rate")) as [-> ->]. simpl.
  rewrite !bool_decide_eq_true_2; [reflexivity| |].
  - apply choiceOf_valid, elem_of_cons. now left.
  - apply choiceOf_valid, elem_of_cons. now left.
Qed.

Lemma prop_insert_ne (input : gmap string JSValue) (k key : string) (v : JSValue) :
  k <> key -> prop (<[k := v]> input) key = prop input key.
Proof. intros H. unfold prop. now rewrite lookup_insert_ne. Qed.

Lemma prop_insert_eq (input : gmap string JSValue) (k : string) (v : JSValue) :
  prop (<[k := v]> input) k = v.
Proof. unfold prop. now rewrite lookup_insert_eq. Qed.

(** C7. [normalizeSettings] returns a well-formed [Settings] for every
    value: the defaults for what is not an object; for an object, each
    field from the property of its name. A missing [rate] is defaulted, a
    NaN one too, a number below or above the range becomes [RATE_MIN] or
    [RATE_MAX], a number in the range is kept, a string counts as the number
    [parseFloat] reads in it, and any other value is defaulted. A flag is
    kept when it is a boolean and defaulted otherwise; [theme] and
    [colorMode] are kept when they are known values and defaulted otherwise.
    A property of another name changes nothing. *)
Theorem normalizeSettings_normalizes (raw : JSValue) :
  wellFormed (normalizeSettings raw) = true
  /\ ((forall input, raw <> JSObject input) ->
      normalizeSettings raw = DEFAULT_SETTINGS)
  /\ (forall input, raw = JSObject input ->
      (input !! "rate" = None -> Settings.rate (normalizeSettings raw) = 1.1)
      /\ (forall n, input !! "rate" = Some (JSNumber n) ->
            (is_nan n = true -> Settings.rate (normalizeSettings raw) = 1.1)
            /\ ((n <? RATE_MIN) = true ->
                Settings.rate (normalizeSettings raw) = RATE_MIN)
            /\ ((RATE_MAX <? n) = true ->
                Settings.rate (normalizeSettings raw) = RATE_MAX)
            /\ ((RATE_MIN <=? n) = true -> (n <=? RATE_MAX) = true ->
                Settings.rate (normalizeSettings raw) = n))
      /\ (forall text, input !! "rate" = Some (JSString text) ->
            normalizeSettings raw =
            normalizeSettings
              (JSObject (<["rate" := JSNumber (parseFloat text)]> input)))
      /\ (forall v, input !! "rate" = Some v ->
            (forall n, v <> JSNumber n) -> (forall text, v <> JSString text) ->
            Settings.rate (normalizeSettings raw) = 1.1)
      /\ Settings.showSecondHand (normalizeSettings raw) =
         match input !! "showSecondHand" with
         | Some (JSBoolean b) => b
         | _ => false
         end
      /\ Settings.showNumbers (normalizeSettings raw) =
         match input !! "showNumbers" with
         | Some (JSBoolean b) => b
         | _ => true
         end
      /\ Settings.showDigitalTime (normalizeSettings raw) =
         match input !! "showDigitalTime" with
         | Some (JSBoolean b) => b
         | _ => false
         end
      /\ Settings.theme (normalizeSettings raw) = "classic"
      /\ Settings.colorMode (normalizeSettings raw) =
         match input !! "colorMode" with
         | Some (JSString mode) =>
             if bool_decide (mode ∈ VALID_COLOR_MODES) then mode else "system"
         | _ => "system"
         end
      /\ (forall k v, k ∉ knownKeys ->
            normalizeSettings (JSObject (<[k := v]> input)) =
            normalizeSettings raw)).
Proof.
  split; [apply normalizeSettings_wellFormed|].
  split; [apply normalizeSettings_not_object|].
  intros input ->. rewrite (normalizeSettings_object input).
  cbn [Settings.rate Settings.showSecondHand Settings.showNumbers
       Settings.showDigitalTime Settings.theme Settings.colorMode].
  repeat match goal with |- _ /\ _ => split end.
  - unfold prop. now intros ->.
  - intros n Hn. unfold prop. rewrite Hn. simpl.
    repeat match goal with |- _ /\ _ => split end.
    + now intros ->.
    + intros Hlow. destruct (ltb_not_nan _ _ Hlow) as [Hnan _].
      now rewrite Hnan, (clamp_rate n Hnan), Hlow.
    + intros Hhigh. destruct (ltb_not_nan _ _ Hhigh) as [_ Hnan].
      now rewrite Hnan, (clamp_rate n Hnan), (above_max_not_below_min n Hhigh),
        Hhigh.
    + intros Hlow Hhigh. destruct (Binary64.leb_not_nan _ _ Hlow) as [_ Hnan].
      now rewrite Hnan, clamp_inside.
  - intros text Ht. rewrite normalizeSettings_object.
    rewrite prop_insert_eq, !prop_insert_ne by discriminate.
    f_equal. unfold prop. now rewrite Ht.
  - intros v Hv Hnum Hstr. unfold prop. rewrite Hv. simpl.
    destruct v; try reflexivity; [now contradiction (Hnum n)|].
    now contradiction (Hstr s).
  - unfold prop. destruct (input !! "showSecondHand") as [[]|]; reflexivity.
  - unfold prop. destruct (input !! "showNumbers") as [[]|]; reflexivity.
  - unfold prop. destruct (input !! "showDigitalTime") as [[]|]; reflexivity.
  - destruct (prop input "theme") as [| | | |th| |]; simpl; try reflexivity.
    destruct (bool_decide (th ∈ VALID_THEMES)) eqn:Hth; [|reflexivity].
    now apply bool_decide_eq_true, list_elem_of_singleton in Hth.
  - unfold prop.
    destruct (input !! "colorMode") as [[| | | |cm| |]|]; reflexivity.
  - intros k v Hk. rewrite normalizeSettings_object.
    unfold knownKeys in Hk. rewrite !not_elem_of_cons in Hk.
    destruct Hk as (H1 & H2 & H3 & H4 & H5 & H6 & _).
    rewrite !prop_insert_ne by assumption. reflexivity.
Qed.

(** *** Storage (C8, C9) *)

Lemma normalizeSettings_settingsObject (s : Settings.t) :
  wellFormed s = true -> normalizeSettings (settingsObject s) = s.
Proof.
  destruct s as [r b1 b2 b3 th cm]. unfold wellFormed.
  cbn [Settings.rate Settings.theme Settings.colorMode].
  intros [[[Hlow Hhigh]%andb_prop Hth%bool_decide_eq_true]%andb_prop
            Hcm%bool_decide_eq_true]%andb_prop.
  unfold settingsObject. rewrite normalizeSettings_object.
  change (prop _ "rate") with (JSNumber r).
  change (prop _ "showSecondHand") with (JSBoolean b1).
  change (prop _ "showNumbers") with (JSBoolean b2).
  change (prop _ "showDigitalTime") with (JSBoolean b3).
  change (prop _ "theme") with (JSString th).
  change (prop _ "colorMode") with (JSString cm).
  simpl.
  destruct (Binary64.leb_not_nan _ _ Hlow) as [_ Hnan].
  rewrite Hnan, (clamp_inside r Hlow Hhigh), !bool_decide_eq_true_2 by assumption.
  reflexivity.
Qed.

Lemma loadFromStorage_stored (ls : LocalStorage) (text : string) (parsed : JSValue) :
  getItemThrows ls = false -> items ls !! STORAGE_KEY = Some text ->
  text <> "" -> JSON_parse text = Normal parsed ->
  loadFromStorage ls = Normal (normalizeSettings parsed).
Proof.
  intros Hget Hitem Htext Hparse. unfold loadFromStorage, getItem.
  rewrite Hget, Hitem. simpl.
  destruct (String.eqb text "") eqn:He.
  - apply String.eqb_eq in He. contradiction.
  - rewrite Hparse. reflexivity.
Qed.

Lemma saveToStorage_written (settings : Settings.t) (ls : LocalStorage) (text : string) :
  JSON_stringify (settingsObject settings) = Normal text ->
  setItemThrows ls = false ->
  saveToStorage settings ls =
  Normal (mkLocalStorage (<[STORAGE_KEY := text]> (items ls))
            (getItemThrows ls) (setItemThrows ls)).
Proof.
  intros Hwrite Hset. unfold saveToStorage, setItem.
  rewrite Hwrite. cbn [mbind Completion_bind]. rewrite Hset. reflexivity.
Qed.

(** C8. For a well-formed [s], on a storage that accepts the write and
    serves the read, and with a [JSON.parse] that reads back the object
    whose text [JSON.stringify] wrote: [loadFromStorage()] after
    [saveToStorage(s)] returns [s]. *)
Theorem settings_round_trip (s : Settings.t) (ls : LocalStorage) (text : string) :
  wellFormed s = true ->
  JSON_stringify (settingsObject s) = Normal text ->
  text <> "" ->
  JSON_parse text = Normal (settingsObject s) ->
  getItemThrows ls = false ->
  setItemThrows ls = false ->
  exists ls', saveToStorage s ls = Normal ls'
              /\ items ls' !! STORAGE_KEY = Some text
              /\ loadFromStorage ls' = Normal s.
Proof.
  intros Hs Hwrite Htext Hread Hget Hset.
  exists (mkLocalStorage (<[STORAGE_KEY := text]> (items ls))
            (getItemThrows ls) (setItemThrows ls)).
  split; [now apply saveToStorage_written|].
  split; [apply lookup_insert_eq|].
  rewrite (loadFromStorage_stored _ text (settingsObject s)); try assumption.
  - now rewrite normalizeSettings_settingsObject.
  - apply lookup_insert_eq.
Qed.

(** C9. [loadFromStorage] never throws and returns a well-formed
    [Settings]: [DEFAULT_SETTINGS] when the read throws, when nothing or the
    empty text is stored, and when [JSON.parse] throws. [saveToStorage]
    never throws: when the write is rejected it leaves the storage as it
    was. *)
Theorem storage_never_throws (ls : LocalStorage) (settings : Settings.t) :
  (exists s, loadFromStorage ls = Normal s /\ wellFormed s = true)
  /\ (getItemThrows ls = true -> loadFromStorage ls = Normal DEFAULT_SETTINGS)
  /\ (getItemThrows ls = false -> items ls !! STORAGE_KEY = None ->
      loadFromStorage ls = Normal DEFAULT_SETTINGS)
  /\ (getItemThrows ls = false -> items ls !! STORAGE_KEY = Some "" ->
      loadFromStorage ls = Normal DEFAULT_SETTINGS)
  /\ (forall text error,
        getItemThrows ls = false -> items ls !! STORAGE_KEY = Some text ->
        JSON_parse text = Throw error ->
        loadFromStorage ls = Normal DEFAULT_SETTINGS)
  /\ (exists ls', saveToStorage settings ls = Normal ls')
  /\ (setItemThrows ls = true -> saveToStorage settings ls = Normal ls)
  /\ (forall error, JSON_stringify (settingsObject settings) = Throw error ->
      saveToStorage settings ls = Normal ls).
Proof.
  unfold loadFromStorage, saveToStorage, getItem, setItem.
  repeat match goal with |- _ /\ _ => split end.
  - destruct (getItemThrows ls); simpl; [now exists DEFAULT_SETTINGS|].
    destruct (items ls !! STORAGE_KEY) as [text|]; simpl;
      [|now exists DEFAULT_SETTINGS].
    destruct (String.eqb text ""); simpl; [now exists DEFAULT_SETTINGS|].
    destruct (JSON_parse text) as [parsed|error]; simpl;
      [|now exists DEFAULT_SETTINGS].
    exists (normalizeSettings parsed).
    split; [reflexivity|apply normalizeSettings_wellFormed].
  - now intros ->.
  - now intros -> ->.
  - now intros -> ->.
  - intros text error -> -> Hparse. simpl.
    destruct (String.eqb text ""); simpl; [reflexivity|].
    now rewrite Hparse.
  - destruct (JSON_stringify (settingsObject settings)) as [text|error]; simpl;
      [|now exists ls].
    destruct (setItemThrows ls); simpl; eauto.
  - intros ->.
    now destruct (JSON_stringify (settingsObject settings)).
  - now intros error ->.
Qed.

End WithHost.

(** *** On a sample host *)

(** A [parseFloat] that reads one numeral, and a [JSON] that writes and
    reads one text: the text of [sampleSettings]. *)
Definition sampleParseFloat (text : string) : float :=
  if String.eqb text "1.5" then 1.5 else nan.

Definition sampleSettings : Settings.t :=
  Settings.mk 1.5 true false true "classic" "dark".

Definition quoted (name : string) : string :=
  String (Ascii.ascii_of_nat 34) (name ++ String (Ascii.ascii_of_nat 34) "").

Definition sampleText : string :=
  "{" ++ quoted "rate" ++ ":1.5," ++ quoted "showSecondHand" ++ ":true,"
  ++ quoted "showNumbers" ++ ":false," ++ quoted "showDigitalTime" ++ ":true,"
  ++ quoted "theme" ++ ":" ++ quoted "classic" ++ ","
  ++ quoted "colorMode" ++ ":" ++ quoted "dark" ++ "}".

Definition sampleStringify (v : JSValue) : Completion string :=
  Normal sampleText.

Definition sampleParse (text : string) : Completion JSValue :=
  if String.eqb text sampleText then Normal (settingsObject sampleSettings)
  else Throw "SyntaxError".

Definition emptyStorage : LocalStorage := mkLocalStorage ∅ false false.
Definition deniedStorage : LocalStorage := mkLocalStorage ∅ true true.

Definition withRate (v : JSValue) : JSValue :=
  JSObject (<["rate" := v]> (asRecord (settingsObject DEFAULT_SETTINGS))).

(** The cases of the tests of [normalizeSettings]. *)
Example normalize_null_undefined :
  normalizeSettings sampleParseFloat JSNull = DEFAULT_SETTINGS
  /\ normalizeSettings sampleParseFloat JSUndefined = DEFAULT_SETTINGS.
Proof. split; reflexivity. Qed.

Example normalize_rate_above :
  Settings.rate (normalizeSettings sampleParseFloat (withRate (JSNumber 15.0)))
  = RATE_MAX.
Proof. reflexivity. Qed.

Example normalize_rate_below :
  Settings.rate (normalizeSettings sampleParseFloat (withRate (JSNumber 0.05)))
  = RATE_MIN.
Proof. reflexivity. Qed.

Example normalize_rate_string :
  Settings.rate (normalizeSettings sampleParseFloat (withRate (JSString "1.5")))
  = 1.5.
Proof. reflexivity. Qed.

Example normalize_rate_nan :
  Settings.rate (normalizeSettings sampleParseFloat (withRate (JSNumber nan)))
  = 1.1
  /\ Settings.rate
       (normalizeSettings sampleParseFloat (withRate (JSString "invalid")))
     = 1.1.
Proof. split; reflexivity. Qed.

Lemma normalizeSettings_normalizes_witness :
  wellFormed (normalizeSettings sampleParseFloat (withRate (JSString "1.5"))) = true
  /\ normalizeSettings sampleParseFloat JSFunction = DEFAULT_SETTINGS
  /\ Settings.rate (normalizeSettings sampleParseFloat (withRate (JSNumber 15.0)))
     = RATE_MAX.
Proof.
  split; [|split].
  - exact (proj1 (normalizeSettings_normalizes sampleParseFloat
                    (withRate (JSString "1.5")))).
  - apply (proj1 (proj2 (normalizeSettings_normalizes sampleParseFloat JSFunction))).
    intros input H. discriminate H.
  - destruct (proj2 (proj2 (normalizeSettings_normalizes sampleParseFloat
                              (withRate (JSNumber 15.0)))) _ eq_refl)
      as (_ & Hnum & _).
    destruct (Hnum 15.0 eq_refl) as (_ & _ & Habove & _).
    exact (Habove eq_refl).
Defined.

Lemma settings_round_trip_witness :
  wellFormed sampleSettings = true
  /\ sampleStringify (settingsObject sampleSettings) = Normal sampleText
  /\ sampleText <> ""
  /\ sampleParse sampleText = Normal (settingsObject sampleSettings)
  /\ exists ls',
       saveToStorage sampleStringify sampleSettings emptyStorage = Normal ls'
       /\ items ls' !! STORAGE_KEY = Some sampleText
       /\ loadFromStorage sampleParseFloat sampleParse ls' = Normal sampleSettings.
Proof.
  assert (Htext : sampleText <> "") by discriminate.
  split; [reflexivity|]. split; [reflexivity|]. split; [exact Htext|].
  split; [reflexivity|].
  exact (settings_round_trip sampleParseFloat sampleParse sampleStringify
           sampleSettings emptyStorage sampleText
           eq_refl eq_refl Htext eq_refl eq_refl eq_refl).
Defined.

Lemma storage_never_throws_witness :
  loadFromStorage sampleParseFloat sampleParse deniedStorage
    = Normal DEFAULT_SETTINGS
  /\ loadFromStorage sampleParseFloat sampleParse emptyStorage
     = Normal DEFAULT_SETTINGS
  /\ saveToStorage sampleStringify sampleSettings deniedStorage
     = Normal deniedStorage.
Proof.
  split; [|split].
  - exact (proj1 (proj2 (storage_never_throws sampleParseFloat sampleParse
                           sampleStringify deniedStorage sampleSettings)) eq_refl).
  - exact (proj1 (proj2 (proj2 (storage_never_throws sampleParseFloat sampleParse
                           sampleStringify emptyStorage sampleSettings)))
             eq_refl eq_refl).
  - exact (proj1 (proj2 (proj2 (proj2 (proj2 (proj2 (proj2
             (storage_never_throws sampleParseFloat sampleParse
                sampleStringify deniedStorage sampleSettings))))))) eq_refl).
Defined.

End Storage.

(** ** More on the time store (src/lib/core/mercurialTime.ts) *)

Module TimeStoreProperties.

Import MercurialTimeState MercurialTime.

(** A frame on a store whose loop is alive: [tick] runs once. *)
Lemma frame_alive (w : World) :
  Inv w -> rafId (vars w) <> None ->
  step Frame w =
  let v := vars w in
  let h := host w in
  let st := stateAt v (clock h (clockReads h)) in
  mkWorld
    (mkVars (baseRealMs v) (baseDisplayMs v) (rate v) true (Some (S (lastHandle h))))
    (mkWritable st (published (store w) ++ [st]))
    (mkHost (clock h) (S (clockReads h)) [S (lastHandle h)] (S (lastHandle h))).
Proof.
  intros Hw Hid. pose proof (inv_running w Hw Hid) as Hon.
  pose proof (inv_frames w Hw) as Hq.
  destruct w as [[a b r on [i|]] s [c k q l]]; [|now contradiction Hid].
  simpl in Hon, Hq. subst on q. now rewrite frame_tick.
Qed.

(** X1. At most one frame callback is queued, the one [rafId] names, and
    only on a running store: the loop never doubles. *)
Theorem one_frame_callback (w : World) :
  reachable w ->
  length (frameRequests (host w)) <= 1%nat
  /\ (forall id, id ∈ frameRequests (host w) <-> rafId (vars w) = Some id)
  /\ (frameRequests (host w) <> [] -> isRunning (vars w) = true).
Proof.
  intros Hw. destruct (reachable_Inv w Hw) as [_ _ _ Hq Hr _].
  rewrite Hq. destruct (rafId (vars w)) as [i|] eqn:Hid.
  - split; [simpl; lia|]. split.
    + intros id. rewrite list_elem_of_singleton. split; congruence.
    + intros _. apply Hr. discriminate.
  - split; [simpl; lia|]. split.
    + intros id. rewrite elem_of_nil. split; [tauto|discriminate].
    + intros H. now contradiction H.
Qed.

Lemma one_frame_callback_witness :
  reachable (run [Frame; CallStop; CallStart; CallStart; Frame] tickingStore)
  /\ length (frameRequests
       (host (run [Frame; CallStop; CallStart; CallStart; Frame] tickingStore))) <= 1%nat.
Proof.
  assert (H : reachable
    (run [Frame; CallStop; CallStart; CallStart; Frame] tickingStore)).
  { repeat apply reachable_step. exact tickingStore_reachable. }
  split; [exact H|]. exact (proj1 (one_frame_callback _ H)).
Defined.

(** X2. While the loop is alive, each frame publishes one snapshot, taken
    from the variables as they are against the next reading of the clock, and
    queues the next callback: [n] frames publish [n] snapshots and leave the
    loop alive. *)
Theorem frames_publish (n : nat) (w : World) :
  reachable w -> rafId (vars w) <> None ->
  published (store (run (replicate n Frame) w)) =
    published (store w)
    ++ map (fun i => stateAt (vars w) (clock (host w) (clockReads (host w) + i)))
         (seq 0%nat n)
  /\ (n <> 0%nat ->
      get (run (replicate n Frame) w) =
      stateAt (vars w) (clock (host w) (clockReads (host w) + pred n)))
  /\ rafId (vars (run (replicate n Frame) w)) <> None
  /\ length (frameRequests (host (run (replicate n Frame) w))) = 1%nat.
Proof.
  intros Hw Hid. apply reachable_Inv in Hw.
  assert (Hq : length (frameRequests (host w)) = 1%nat).
  { rewrite (inv_frames w Hw). now destruct (rafId (vars w)). }
  revert w Hw Hid Hq.
  induction n as [|n IH]; intros w Hw Hid Hq.
  - change (run (replicate 0%nat Frame) w) with w. simpl.
    rewrite app_nil_r. split; [reflexivity|]. split; [now intros H|].
    split; assumption.
  - change (run (replicate (S n) Frame) w)
      with (run (replicate n Frame) (step Frame w)).
    pose proof (Inv_step Frame w Hw) as Hw'.
    pose proof (frame_alive w Hw Hid) as E. cbv zeta in E.
    assert (Hid' : rafId (vars (step Frame w)) <> None) by now rewrite E.
    assert (Hq' : length (frameRequests (host (step Frame w))) = 1%nat)
      by now rewrite E.
    assert (Hst : forall t, stateAt (vars (step Frame w)) t = stateAt (vars w) t).
    { intros t. rewrite E. unfold stateAt. simpl.
      now rewrite (inv_running w Hw Hid). }
    assert (Hpub : published (store (step Frame w)) =
                   published (store w)
                   ++ [stateAt (vars w) (clock (host w) (clockReads (host w)))])
      by now rewrite E.
    assert (Hc : clock (host (step Frame w)) = clock (host w)) by now rewrite E.
    assert (Hk : clockReads (host (step Frame w)) = S (clockReads (host w)))
      by now rewrite E.
    destruct (IH (step Frame w) Hw' Hid' Hq') as (Hp & Hg & Hr & Hl).
    split; [|split; [|now split]].
    + rewrite Hp, Hpub, Hc, Hk, <- app_assoc. simpl.
      rewrite Nat.add_0_r. do 2 f_equal.
      rewrite <- seq_shift, map_map. apply map_ext. intros i.
      now rewrite Hst, Nat.add_succ_r.
    + intros _. destruct n as [|n].
      * change (run (replicate 0%nat Frame) (step Frame w)) with (step Frame w).
        unfold get. rewrite E. simpl. now rewrite Nat.add_0_r.
      * rewrite Hg by discriminate. rewrite Hst, Hc, Hk. simpl.
        now rewrite Nat.add_succ_r.
Qed.

Lemma frames_publish_witness :
  reachable tickingStore
  /\ rafId (vars tickingStore) <> None
  /\ length (published (store (run (replicate 3%nat Frame) tickingStore))) = 3%nat
  /\ realTime (get (run (replicate 3%nat Frame) tickingStore)) = JS.Date_new 1004.
Proof.
  assert (Hid : rafId (vars tickingStore) <> None) by discriminate.
  split; [exact tickingStore_reachable|]. split; [exact Hid|].
  destruct (frames_publish 3%nat tickingStore tickingStore_reachable Hid)
    as (Hp & Hg & _).
  split.
  - rewrite Hp. reflexivity.
  - rewrite Hg by discriminate. reflexivity.
Defined.

(** After [start] the store is running, after [stop] it is not. *)
Lemma start_sets_running (w : World) : isRunning (vars (step CallStart w)) = true.
Proof. destruct w as [[a b r [|] [i|]] s h]; reflexivity. Qed.

Lemma stop_clears_running (w : World) : isRunning (vars (step CallStop w)) = false.
Proof. destruct w as [[a b r [|] [i|]] s h]; reflexivity. Qed.

(** X3. [start] and [stop] are idempotent, in every state: the second of
    two [start]s (or of two [stop]s) changes nothing and publishes nothing;
    so does [start] on a running store and [stop] on a stopped one. *)
Theorem start_stop_idempotent (w : World) :
  step CallStart (step CallStart w) = step CallStart w
  /\ step CallStop (step CallStop w) = step CallStop w
  /\ (isRunning (vars w) = true -> step CallStart w = w)
  /\ (isRunning (vars w) = false -> step CallStop w = w).
Proof.
  split; [apply start_running, start_sets_running|].
  split; [apply stop_stopped, stop_clears_running|].
  split; [apply start_running|apply stop_stopped].
Qed.

Lemma start_stop_idempotent_witness :
  isRunning (vars tickingStore) = true
  /\ step CallStart tickingStore = tickingStore
  /\ step CallStop (step CallStop tickingStore) = step CallStop tickingStore.
Proof.
  split; [reflexivity|]. split.
  - exact (proj1 (proj2 (proj2 (start_stop_idempotent tickingStore))) eq_refl).
  - exact (proj1 (proj2 (start_stop_idempotent tickingStore))).
Defined.

(** Events that do not bring a destroyed store back: frames and calls of
    [destroy] and [start]. *)
Definition neverRevives (e : Event) : bool :=
  match e with Frame | CallDestroy | CallStart => true | _ => false end.

(** X4. [destroy] leaves [isRunning] as it is. So on a store destroyed
    while running, [start] returns at its guard: no frame is requested and
    nothing is published, however often [start], [destroy] and frames
    follow. *)
Theorem start_after_destroy_is_noop (w : World) (es : list Event) :
  reachable w -> isRunning (vars w) = true ->
  forallb neverRevives es = true ->
  isRunning (vars (step CallDestroy w)) = true
  /\ run es (step CallDestroy w) = step CallDestroy w.
Proof.
  intros Hw Hon Hes.
  pose proof (Inv_step CallDestroy w (reachable_Inv w Hw)) as Hd.
  assert (Hid : rafId (vars (step CallDestroy w)) = None)
    by (destruct w as [[a b r on [i|]] s h]; reflexivity).
  assert (Hon' : isRunning (vars (step CallDestroy w)) = true)
    by (destruct w as [[a b r on [i|]] s h]; exact Hon).
  split; [exact Hon'|].
  induction es as [|e es IH]; [reflexivity|].
  apply andb_prop in Hes as [He Hes].
  rewrite run_cons.
  assert (Hstep : step e (step CallDestroy w) = step CallDestroy w).
  { destruct e; try discriminate.
    - now apply start_running.
    - now apply destroy_idle.
    - apply frame_idle. rewrite (inv_frames _ Hd), Hid. reflexivity. }
  rewrite Hstep. now apply IH.
Qed.

Lemma start_after_destroy_is_noop_witness :
  reachable tickingStore
  /\ isRunning (vars tickingStore) = true
  /\ run [CallStart; Frame; CallStart] (step CallDestroy tickingStore)
     = step CallDestroy tickingStore.
Proof.
  split; [exact tickingStore_reachable|]. split; [reflexivity|].
  exact (proj2 (start_after_destroy_is_noop tickingStore
                  [CallStart; Frame; CallStart]
                  tickingStore_reachable eq_refl eq_refl)).
Defined.

(** X5. [reset], in every state: both anchors become the instant read,
    the rate, the running flag and the frame handle stay, and exactly one
    snapshot is published, computed against the next reading of the clock.
    With a finite rate and the same instant at both readings, its
    [displayTime] is its [realTime]. *)
Theorem reset_snapshot (w : World) :
  let now := clock (host w) (clockReads (host w)) in
  let nowRealMs := clock (host w) (S (clockReads (host w))) in
  let w' := step CallReset w in
  vars w' = mkVars now now (rate (vars w)) (isRunning (vars w)) (rafId (vars w))
  /\ published (store w') = published (store w) ++ [get w']
  /\ get w' = stateAt (vars w') nowRealMs
  /\ frameRequests (host w') = frameRequests (host w)
  /\ (is_finite (rate (vars w)) = true -> nowRealMs = now ->
      displayTime (get w') = realTime (get w')).
Proof.
  destruct w as [v s h]. cbv zeta. rewrite reset_world.
  repeat (split; [reflexivity|]). simpl.
  intros Hr ->. now apply Date_new_zero_elapsed.
Qed.

Lemma reset_snapshot_witness :
  is_finite (rate (vars steadyStore)) = true
  /\ clock (host steadyStore) (S (clockReads (host steadyStore)))
     = clock (host steadyStore) (clockReads (host steadyStore))
  /\ displayTime (get (step CallReset steadyStore))
     = realTime (get (step CallReset steadyStore)).
Proof.
  split; [reflexivity|]. split; [reflexivity|].
  exact (proj2 (proj2 (proj2 (proj2 (reset_snapshot steadyStore))))
           eq_refl eq_refl).
Defined.

Lemma ticks_keep_rate_running (callbacks : list nat) (w : World) :
  rate (vars (foldl (fun w _ => exec tick w) w callbacks)) = rate (vars w)
  /\ isRunning (vars (foldl (fun w _ => exec tick w) w callbacks))
     = isRunning (vars w).
Proof.
  revert w. induction callbacks as [|i callbacks IH]; intros w; [now split|].
  simpl. destruct (IH (exec tick w)) as [-> ->].
  destruct w as [[a b r [|] id] s h]; split; reflexivity.
Qed.

(** Only [setRate] changes the rate. *)
Lemma step_keeps_rate (e : Event) (w : World) :
  (forall newRate, e <> CallSetRate newRate) ->
  rate (vars (step e w)) = rate (vars w).
Proof.
  intros He. destruct e.
  - now contradiction (He newRate).
  - destruct w as [v s h]. reflexivity.
  - destruct w as [[a b r [|] [i|]] s h]; reflexivity.
  - destruct w as [[a b r [|] [i|]] s h]; reflexivity.
  - destruct w as [[a b r on [i|]] s h]; reflexivity.
  - destruct w as [v s h].
    exact (proj1 (ticks_keep_rate_running (frameRequests h)
             (mkWorld v s (mkHost (clock h) (clockReads h) [] (lastHandle h))))).
Qed.

(** X6. Which call changes what, in every state: the rate is what the
    last [setRate] gave (the store keeps any number, unchecked), and nothing
    else changes it; the running flag is set by [start] and cleared by
    [stop], and [setRate], [reset], [destroy] and the frames leave it. *)
Theorem rate_and_running_after (e : Event) (w : World) :
  rate (vars (step e w)) =
    match e with CallSetRate newRate => newRate | _ => rate (vars w) end
  /\ isRunning (vars (step e w)) =
     match e with
     | CallStart => true
     | CallStop => false
     | _ => isRunning (vars w)
     end.
Proof.
  destruct e.
  - destruct w as [v s h]. split; reflexivity.
  - destruct w as [v s h]. split; reflexivity.
  - split; [now apply step_keeps_rate|apply start_sets_running].
  - split; [now apply step_keeps_rate|apply stop_clears_running].
  - destruct w as [[a b r on [i|]] s h]; split; reflexivity.
  - destruct w as [v s h].
    exact (ticks_keep_rate_running (frameRequests h)
             (mkWorld v s (mkHost (clock h) (clockReads h) [] (lastHandle h)))).
Qed.

Lemma publishes_at_most_one (e : Event) (w : World) :
  Inv w ->
  published (store (step e w)) = published (store w)
  \/ published (store (step e w)) = published (store w) ++ [get (step e w)].
Proof.
  intros Hw. destruct e.
  - right. destruct w as [v s h]. reflexivity.
  - right. destruct w as [v s h]. reflexivity.
  - destruct (isRunning (vars w)) eqn:Hon.
    + left. now rewrite start_running.
    + right. destruct (stopped_idle w Hw Hon) as [Hid _].
      destruct w as [[a b r on id] s h]. simpl in Hon, Hid. subst on id.
      reflexivity.
  - destruct (isRunning (vars w)) eqn:Hon.
    + right. destruct w as [[a b r on id] s h]. simpl in Hon. subst on.
      rewrite stop_running. reflexivity.
    + left. now rewrite stop_stopped.
  - left. destruct w as [[a b r on [i|]] s h]; reflexivity.
  - destruct (rafId (vars w)) eqn:Hid.
    + right. rewrite frame_alive by (assumption || congruence). reflexivity.
    + left. rewrite frame_idle; [reflexivity|].
      now rewrite (inv_frames w Hw), Hid.
Qed.

(** X7. What has been published stays published, in order; each call and
    each frame adds at most one snapshot. *)
Theorem published_append_only (es : list Event) (w : World) :
  reachable w ->
  exists more,
    published (store (run es w)) = published (store w) ++ more
    /\ length more <= length es.
Proof.
  intros Hw. apply reachable_Inv in Hw. revert w Hw.
  induction es as [|e es IH]; intros w Hw.
  - exists []. rewrite run_nil, app_nil_r. split; [reflexivity|simpl; lia].
  - rewrite run_cons.
    destruct (IH (step e w) (Inv_step e w Hw)) as (more & Hp & Hl).
    destruct (publishes_at_most_one e w Hw) as [E|E]; rewrite E in Hp.
    + exists more. split; [exact Hp|simpl; lia].
    + exists (get (step e w) :: more). rewrite Hp, <- app_assoc.
      split; [reflexivity|simpl; lia].
Qed.

Lemma published_append_only_witness :
  reachable tickingStore
  /\ exists more,
       published (store (run [Frame; CallStart; CallStop; CallStop] tickingStore))
       = published (store tickingStore) ++ more
       /\ length more <= length [Frame; CallStart; CallStop; CallStop].
Proof.
  split; [exact tickingStore_reachable|].
  exact (published_append_only [Frame; CallStart; CallStop; CallStop]
           tickingStore tickingStore_reachable).
Defined.

End TimeStoreProperties.

(** ** More on the storage utilities (src/lib/utils/storage.ts) *)

Module StorageProperties.

Import Storage.

Lemma leb_reflexive (x : float) : is_nan x = false -> (x <=? x) = true.
Proof.
  rewrite Binary64.is_nan_SF, FloatAxioms.leb_spec. intros H. unfold SFleb.
  now rewrite Binary64.SFcompare_refl.
Qed.

(** [Math.max] of two numbers is one of them and bounds both from above;
    [Math.min] is one of them and bounds both from below. *)
Lemma Math_max_bounds (x y : float) :
  is_nan x = false -> is_nan y = false ->
  (JS.Math_max x y = x \/ JS.Math_max x y = y)
  /\ (x <=? JS.Math_max x y) = true /\ (y <=? JS.Math_max x y) = true.
Proof.
  intros Hx Hy. unfold JS.Math_max. rewrite Hx, Hy. simpl.
  destruct (x <? y) eqn:Hxy.
  - split; [now right|]. split; [now apply Binary64.ltb_leb|now apply leb_reflexive].
  - pose proof (Binary64.ltb_false_leb x y Hx Hy Hxy) as Hyx'.
    destruct (y <? x) eqn:Hyx.
    + split; [now left|]. split; [now apply leb_reflexive|exact Hyx'].
    + pose proof (Binary64.ltb_false_leb y x Hy Hx Hyx) as Hxy'.
      destruct (get_sign x).
      * split; [now right|]. split; [exact Hxy'|now apply leb_reflexive].
      * split; [now left|]. split; [now apply leb_reflexive|exact Hyx'].
Qed.

Lemma Math_min_bounds (x y : float) :
  is_nan x = false -> is_nan y = false ->
  (JS.Math_min x y = x \/ JS.Math_min x y = y)
  /\ (JS.Math_min x y <=? x) = true /\ (JS.Math_min x y <=? y) = true.
Proof.
  intros Hx Hy. unfold JS.Math_min. rewrite Hx, Hy. simpl.
  destruct (x <? y) eqn:Hxy.
  - split; [now left|]. split; [now apply leb_reflexive|now apply Binary64.ltb_leb].
  - pose proof (Binary64.ltb_false_leb x y Hx Hy Hxy) as Hyx'.
    destruct (y <? x) eqn:Hyx.
    + split; [now right|]. split; [exact Hyx'|now apply leb_reflexive].
    + pose proof (Binary64.ltb_false_leb y x Hy Hx Hyx) as Hxy'.
      destruct (get_sign x).
      * split; [now left|]. split; [now apply leb_reflexive|exact Hxy'].
      * split; [now right|]. split; [exact Hyx'|now apply leb_reflexive].
Qed.

(** X8. [clamp(value, min, max)] for any bounds with [min <= max] and a
    [value] that is a number: the result is [value], [min] or [max], and lies
    between [min] and [max]. A NaN [value] is not clamped: the result is
    NaN. *)
Theorem clamp_between (value min max : float) :
  (min <=? max) = true ->
  (is_nan value = false ->
     (clamp value min max = value \/ clamp value min max = min
      \/ clamp value min max = max)
     /\ (min <=? clamp value min max) = true
     /\ (clamp value min max <=? max) = true)
  /\ (is_nan value = true -> clamp value min max = nan).
Proof.
  intros Hb. destruct (Binary64.leb_not_nan _ _ Hb) as [Hmin Hmax]. split.
  - intros Hv. unfold clamp.
    destruct (Math_max_bounds value min Hv Hmin) as (Hm & _ & Hlow).
    assert (Hmn : is_nan (JS.Math_max value min) = false)
      by (destruct Hm as [-> | ->]; assumption).
    destruct (Math_min_bounds (JS.Math_max value min) max Hmn Hmax)
      as ([E|E] & _ & Hhigh).
    + rewrite E in *. split; [|split; [exact Hlow|exact Hhigh]].
      destruct Hm as [-> | ->]; auto.
    + rewrite E in *. split; [auto|]. split; [exact Hb|exact Hhigh].
  - intros Hv. unfold clamp, JS.Math_max. rewrite Hv. reflexivity.
Qed.

Lemma clamp_between_witness :
  (0.1 <=? 10) = true
  /\ clamp 15 0.1 10 = 10
  /\ (0.1 <=? clamp 0.05 0.1 10) = true
  /\ clamp nan 0.1 10 = nan.
Proof.
  split; [reflexivity|]. split; [reflexivity|]. split.
  - exact (proj1 (proj2 (proj1 (clamp_between 0.05 0.1 10 eq_refl) eq_refl))).
  - exact (proj2 (clamp_between nan 0.1 10 eq_refl) eq_refl).
Defined.

Section WithHost.

Context (parseFloat : string -> float).
Context (JSON_parse : string -> Completion JSValue).
Context (JSON_stringify : JSValue -> Completion string).

Set Default Proof Using "Type".

(** X9. Normalizing is a projection: the object of a normalized value
    normalizes to itself, whatever the value was. *)
Theorem normalizeSettings_idempotent (raw : JSValue) :
  normalizeSettings parseFloat
    (settingsObject (normalizeSettings parseFloat raw))
  = normalizeSettings parseFloat raw.
Proof.
  apply normalizeSettings_settingsObject, normalizeSettings_wellFormed.
Qed.

(** X10. [saveToStorage] writes under [STORAGE_KEY] only, and
    [loadFromStorage] reads that key only: every other entry of the storage
    is left as it was, and what is stored under another key has no effect on
    what is loaded. *)
Theorem storage_uses_one_key
    (settings : Settings.t) (ls : LocalStorage) (key value : string) :
  key <> STORAGE_KEY ->
  (forall ls', saveToStorage JSON_stringify settings ls = Normal ls' ->
     items ls' !! key = items ls !! key
     /\ getItemThrows ls' = getItemThrows ls
     /\ setItemThrows ls' = setItemThrows ls)
  /\ loadFromStorage parseFloat JSON_parse
       (mkLocalStorage (<[key := value]> (items ls))
          (getItemThrows ls) (setItemThrows ls))
     = loadFromStorage parseFloat JSON_parse ls
  /\ loadFromStorage parseFloat JSON_parse
       (mkLocalStorage (delete key (items ls))
          (getItemThrows ls) (setItemThrows ls))
     = loadFromStorage parseFloat JSON_parse ls.
Proof.
  intros Hk. split; [|split].
  - intros ls'. unfold saveToStorage, setItem.
    destruct (JSON_stringify (settingsObject settings)) as [text|error]; simpl.
    + destruct (setItemThrows ls) eqn:Hset; simpl; intros [= <-]; simpl.
      * now rewrite Hset.
      * now rewrite lookup_insert_ne by congruence.
    + now intros [= <-].
  - unfold loadFromStorage, getItem. simpl.
    now rewrite lookup_insert_ne by exact Hk.
  - unfold loadFromStorage, getItem. simpl.
    now rewrite lookup_delete_ne by exact Hk.
Qed.

(** X11. The last save wins: after [saveToStorage(first)] and then
    [saveToStorage(second)], on a storage that accepts writes and serves
    reads, [loadFromStorage()] returns [second], for a well-formed [second]
    whose text [JSON.parse] reads back, whatever [first] was. *)
Theorem last_save_wins
    (first second : Settings.t) (ls : LocalStorage) (text : string) :
  wellFormed second = true ->
  JSON_stringify (settingsObject second) = Normal text ->
  text <> "" ->
  JSON_parse text = Normal (settingsObject second) ->
  getItemThrows ls = false ->
  setItemThrows ls = false ->
  exists ls1 ls2,
    saveToStorage JSON_stringify first ls = Normal ls1
    /\ saveToStorage JSON_stringify second ls1 = Normal ls2
    /\ loadFromStorage parseFloat JSON_parse ls2 = Normal second.
Proof.
  intros Hs Hwrite Htext Hread Hget Hset.
  assert (H1 : exists ls1,
             saveToStorage JSON_stringify first ls = Normal ls1
             /\ getItemThrows ls1 = false /\ setItemThrows ls1 = false).
  { unfold saveToStorage, setItem.
    destruct (JSON_stringify (settingsObject first)) as [t1|e1]; simpl.
    - rewrite Hset. simpl. eexists. split; [reflexivity|]. now split.
    - exists ls. now split. }
  destruct H1 as (ls1 & E1 & Hget1 & Hset1).
  exists ls1.
  exists (mkLocalStorage (<[STORAGE_KEY := text]> (items ls1))
            (getItemThrows ls1) (setItemThrows ls1)).
  split; [exact E1|].
  split; [exact (saveToStorage_written JSON_stringify second ls1 text Hwrite Hset1)|].
  rewrite (loadFromStorage_stored parseFloat JSON_parse _ text
             (settingsObject second)); try assumption.
  - now rewrite normalizeSettings_settingsObject.
  - apply lookup_insert_eq.
Qed.

End WithHost.

Lemma storage_uses_one_key_witness :
  "theme" <> STORAGE_KEY
  /\ loadFromStorage sampleParseFloat sampleParse
       (mkLocalStorage (<["theme" := "dark"]> (items emptyStorage)) false false)
     = loadFromStorage sampleParseFloat sampleParse emptyStorage.
Proof.
  assert (H : "theme" <> STORAGE_KEY) by discriminate.
  split; [exact H|].
  exact (proj1 (proj2 (storage_uses_one_key sampleParseFloat sampleParse
                         sampleStringify sampleSettings emptyStorage
                         "theme" "dark" H))).
Defined.

Lemma last_save_wins_witness :
  wellFormed sampleSettings = true
  /\ sampleText <> ""
  /\ exists ls1 ls2,
       saveToStorage sampleStringify DEFAULT_SETTINGS emptyStorage = Normal ls1
       /\ saveToStorage sampleStringify sampleSettings ls1 = Normal ls2
       /\ loadFromStorage sampleParseFloat sampleParse ls2 = Normal sampleSettings.
Proof.
  assert (Htext : sampleText <> "") by discriminate.
  split; [reflexivity|]. split; [exact Htext|].
  exact (last_save_wins sampleParseFloat sampleParse sampleStringify
           DEFAULT_SETTINGS sampleSettings emptyStorage sampleText
           eq_refl eq_refl Htext eq_refl eq_refl eq_refl).
Defined.

End StorageProperties.

(** ** src/lib/stores/settings.ts

    The settings store: a svelte [writable] whose [set] and [update] also
    save to [localStorage]. A world is the writable (its value and what it
    has handed to a subscriber attached since the creation) and the
    storage. *)

Module SettingsStore.

Import Storage.

Record World : Type := mkWorld {
  value : Settings.t;
  published : list Settings.t;
  localStorage : LocalStorage
}.

(** The writable's own [set]: a [Settings] is an object, never skipped as
    unchanged. *)
Definition baseSet (v : Settings.t) (w : World) : World :=
  mkWorld v (published w ++ [v]) (localStorage w).

Section WithHost.

Context (parseFloat : string -> float).
Context (JSON_parse : string -> Completion JSValue).
Context (JSON_stringify : JSValue -> Completion string).

Set Default Proof Using "Type".

Definition createSettingsStore (ls : LocalStorage) : Completion World :=
  initialValue ← loadFromStorage parseFloat JSON_parse ls;
  mret (mkWorld initialValue [] ls).

Definition set (v : Settings.t) (w : World) : Completion World :=
  let w1 := baseSet v w in
  ls ← saveToStorage JSON_stringify v (localStorage w1);
  mret (mkWorld (value w1) (published w1) ls).

(** [baseUpdate(fn)] is the writable's [set(fn(value))]; the callback saves
    before it returns. *)
Definition update (updater : Settings.t -> Settings.t) (w : World)
    : Completion World :=
  let current := value w in
  let newValue := updater current in
  ls ← saveToStorage JSON_stringify newValue (localStorage w);
  mret (baseSet newValue (mkWorld (value w) (published w) ls)).

Definition reset (w : World) : Completion World := set DEFAULT_SETTINGS w.

Lemma saveToStorage_completes (v : Settings.t) (ls : LocalStorage) :
  exists ls', saveToStorage JSON_stringify v ls = Normal ls'
              /\ (setItemThrows ls = true -> ls' = ls).
Proof.
  unfold saveToStorage, setItem.
  destruct (JSON_stringify (settingsObject v)) as [text|error]; simpl;
    [|now exists ls].
  destruct (setItemThrows ls); simpl.
  - now exists ls.
  - eexists. split; [reflexivity|discriminate].
Qed.

Lemma set_result (v : Settings.t) (w : World) :
  exists ls', set v w = Normal (mkWorld v (published w ++ [v]) ls').
Proof.
  unfold set. simpl.
  destruct (saveToStorage_completes v (localStorage w)) as (ls' & E & _).
  exists ls'. now rewrite E.
Qed.

(** X12. [set] never throws and does not check its argument: the store's
    value becomes [v], well-formed or not, and [v] is published, also when
    the storage rejects the write; the stored text is then what it was, so
    the value in memory and the value saved differ. *)
Theorem set_keeps_value (v : Settings.t) (w : World) :
  exists ls',
    set v w = Normal (mkWorld v (published w ++ [v]) ls')
    /\ (setItemThrows (localStorage w) = true -> ls' = localStorage w).
Proof.
  unfold set. simpl.
  destruct (saveToStorage_completes v (localStorage w)) as (ls' & E & Hsame).
  exists ls'. rewrite E. now split.
Qed.

(** X13. [update(updater)] is [set(updater(value))]: the same value, the
    same publication and the same storage; and [reset()] is
    [set(DEFAULT_SETTINGS)], whatever the store held. *)
Theorem update_is_set (updater : Settings.t -> Settings.t) (w : World) :
  update updater w = set (updater (value w)) w
  /\ (forall w', reset w = Normal w' -> value w' = DEFAULT_SETTINGS)
  /\ update (fun _ => DEFAULT_SETTINGS) w = reset w.
Proof.
  assert (E : forall f, update f w = set (f (value w)) w).
  { intros f. unfold update, set. simpl.
    now destruct (saveToStorage JSON_stringify (f (value w)) (localStorage w)). }
  split; [apply E|]. split; [|apply E].
  intros w'. unfold reset.
  destruct (set_result DEFAULT_SETTINGS w) as (ls' & ->).
  now intros [= <-].
Qed.

(** X14. What a session sets, the next one starts with, normalized: on a
    storage that accepts the write and serves the read, and for a [v] whose
    text [JSON.parse] reads back, the store created after [set(v)] holds
    [normalizeSettings] of [v]; that is [v] itself when [v] is well-formed,
    while a rate that [set] accepted above [RATE_MAX] comes back as
    [RATE_MAX]. *)
Theorem set_then_reload (v : Settings.t) (w : World) (text : string) :
  JSON_stringify (settingsObject v) = Normal text ->
  text <> "" ->
  JSON_parse text = Normal (settingsObject v) ->
  getItemThrows (localStorage w) = false ->
  setItemThrows (localStorage w) = false ->
  exists w' reloaded,
    set v w = Normal w'
    /\ createSettingsStore (localStorage w') = Normal reloaded
    /\ value reloaded = normalizeSettings parseFloat (settingsObject v)
    /\ published reloaded = []
    /\ (wellFormed v = true -> value reloaded = v)
    /\ ((RATE_MAX <? Settings.rate v) = true ->
        Settings.rate (value reloaded) = RATE_MAX).
Proof.
  intros Hwrite Htext Hread Hget Hset.
  pose proof (saveToStorage_written JSON_stringify v (localStorage w) text
                Hwrite Hset) as Es.
  set (ls' := mkLocalStorage (<[STORAGE_KEY := text]> (items (localStorage w)))
                (getItemThrows (localStorage w))
                (setItemThrows (localStorage w))) in Es.
  assert (El : loadFromStorage parseFloat JSON_parse ls'
               = Normal (normalizeSettings parseFloat (settingsObject v))).
  { apply loadFromStorage_stored with text; try assumption.
    apply lookup_insert_eq. }
  exists (mkWorld v (published w ++ [v]) ls').
  exists (mkWorld (normalizeSettings parseFloat (settingsObject v)) [] ls').
  split.
  { unfold set, baseSet. cbn [localStorage value published].
    rewrite Es. reflexivity. }
  split.
  { unfold createSettingsStore. cbn [localStorage]. rewrite El. reflexivity. }
  cbn [value published].
  split; [reflexivity|]. split; [reflexivity|]. split.
  - apply normalizeSettings_settingsObject.
  - intros Hhigh. destruct v as [r b1 b2 b3 th cm]. simpl in Hhigh.
    unfold settingsObject. rewrite normalizeSettings_object.
    change (prop _ "rate") with (JSNumber r).
    cbn [Settings.rate rateOf].
    destruct (ltb_not_nan _ _ Hhigh) as [_ Hnan].
    now rewrite Hnan, (clamp_rate r Hnan), (above_max_not_below_min r Hhigh),
      Hhigh.
Qed.

End WithHost.

Lemma set_then_reload_witness :
  sampleText <> ""
  /\ exists w' reloaded,
       set sampleStringify sampleSettings (mkWorld DEFAULT_SETTINGS [] emptyStorage)
       = Normal w'
       /\ createSettingsStore sampleParseFloat sampleParse (localStorage w')
          = Normal reloaded
       /\ value reloaded = sampleSettings.
Proof.
  assert (Htext : sampleText <> "") by discriminate.
  split; [exact Htext|].
  destruct (set_then_reload sampleParseFloat sampleParse sampleStringify
              sampleSettings (mkWorld DEFAULT_SETTINGS [] emptyStorage) sampleText
              eq_refl Htext eq_refl eq_refl eq_refl)
    as (w' & reloaded & Hset & Hload & _ & _ & Hsame & _).
  exists w', reloaded. split; [exact Hset|]. split; [exact Hload|].
  exact (Hsame eq_refl).
Defined.

End SettingsStore.

(** ** src/App.svelte and src/lib/components/SettingsModal.svelte

    The root component owns the time store, reads the settings store and
    opens the settings dialog. Its state is the two stores, the flag of the
    dialog and the class list of the document's root element. *)

Module App.

Import Storage.

Set Warnings "-clear-no-such-hyp".

(** [applyColorMode(mode)] on [document.documentElement.classList]. *)
Definition applyColorMode (mode : string) (classList : gset string) : gset string :=
  let removed := classList ∖ {["light"; "dark"]} in
  if bool_decide (mode ≠ "system") then removed ∪ {[mode]} else removed.

(** X15. After [applyColorMode(mode)], for a known mode, the root element
    carries the class [light] exactly when the mode is [light] and [dark]
    exactly when it is [dark], never both; its other classes are untouched.
    Applying a mode twice is applying it once, and of two modes applied in
    turn only the second shows. *)
Theorem applyColorMode_shows_mode (mode : string) (classList : gset string) :
  mode ∈ VALID_COLOR_MODES ->
  ("light" ∈ applyColorMode mode classList <-> mode = "light")
  /\ ("dark" ∈ applyColorMode mode classList <-> mode = "dark")
  /\ (forall c, c <> "light" -> c <> "dark" ->
        (c ∈ applyColorMode mode classList <-> c ∈ classList))
  /\ applyColorMode mode (applyColorMode mode classList)
     = applyColorMode mode classList
  /\ (forall previous, previous ∈ VALID_COLOR_MODES ->
        applyColorMode mode (applyColorMode previous classList)
        = applyColorMode mode classList).
Proof.
  unfold VALID_COLOR_MODES. rewrite !elem_of_cons, elem_of_nil.
  intros [->|[->|[->|[]]]]; unfold applyColorMode; simpl;
    repeat match goal with |- _ /\ _ => split end;
    try (intros previous; rewrite !elem_of_cons, elem_of_nil;
         intros [->|[->|[->|[]]]]; simpl);
    set_solver.
Qed.

Lemma applyColorMode_shows_mode_witness :
  "dark" ∈ VALID_COLOR_MODES
  /\ applyColorMode "dark" (applyColorMode "light" {["app"]})
     = applyColorMode "dark" {["app"]}.
Proof.
  assert (H : "dark" ∈ VALID_COLOR_MODES)
    by (unfold VALID_COLOR_MODES; rewrite !elem_of_cons; auto).
  assert (H' : "light" ∈ VALID_COLOR_MODES)
    by (unfold VALID_COLOR_MODES; rewrite !elem_of_cons; auto).
  split; [exact H|].
  exact (proj2 (proj2 (proj2 (proj2
    (applyColorMode_shows_mode "dark" {["app"]} H)))) "light" H').
Defined.

(** *** The dialog (src/lib/components/SettingsModal.svelte)

    The dialog copies the settings it is opened with into local variables,
    which its inputs are bound to. *)

Record Modal : Type := mkModal {
  settings : Settings.t;
  localRate : float;
  localShowSecondHand : bool;
  localShowNumbers : bool;
  localShowDigitalTime : bool;
  localColorMode : string
}.

Definition openModal (current : Settings.t) : Modal :=
  mkModal current (Settings.rate current) (Settings.showSecondHand current)
    (Settings.showNumbers current) (Settings.showDigitalTime current)
    (Settings.colorMode current).

(** What [handleApply] dispatches with the [apply] event. *)
Definition handleApply (m : Modal) : Settings.t :=
  Settings.mk (localRate m) (localShowSecondHand m) (localShowNumbers m)
    (localShowDigitalTime m) (Settings.theme (settings m)) (localColorMode m).

(** *** The root component *)

Record State : Type := mkState {
  settingsStore : SettingsStore.World;
  timeStore : MercurialTime.World;
  isModalOpen : bool;
  rootClasses : gset string
}.

(** [x !== y] on numbers, and the sameness of two numbers that counts NaN
    as itself. *)
Definition strictNotEqual (x y : float) : bool := negb (x =? y).

Definition sameNumber (x y : float) : bool :=
  (x =? y) || (is_nan x && is_nan y).

Section WithHost.

Context (parseFloat : string -> float).
Context (JSON_parse : string -> Completion JSValue).
Context (JSON_stringify : JSValue -> Completion string).

Set Default Proof Using "Type".

(** The script of the component, run when it is created: the time store is
    created with [$settings.rate], the dialog is closed, and the reactive
    statement applies [$settings.colorMode]. *)
Definition mount (h : MercurialTime.Host) (classList : gset string)
    (settings0 : SettingsStore.World) : State :=
  mkState settings0
    (MercurialTime.createMercurialTimeStore
       (Settings.rate (SettingsStore.value settings0)) h)
    false
    (applyColorMode (Settings.colorMode (SettingsStore.value settings0)) classList).

Definition handleReset (st : State) : State :=
  mkState (settingsStore st)
    (MercurialTime.exec MercurialTime.reset (timeStore st))
    (isModalOpen st) (rootClasses st).

(** [handleApplySettings(event)] with [event.detail = newSettings]; the
    reactive statement on [$settings.colorMode] runs again since [$settings]
    has changed. *)
Definition handleApplySettings (newSettings : Settings.t) (st : State)
    : Completion State :=
  settings' ← SettingsStore.set JSON_stringify newSettings (settingsStore st);
  let timeStore' :=
    if strictNotEqual (Settings.rate newSettings)
         (MercurialTimeState.rate (MercurialTime.get (timeStore st)))
    then MercurialTime.exec
           (MercurialTime.setRate (Settings.rate newSettings)) (timeStore st)
    else timeStore st in
  mret (mkState settings' timeStore' false
          (applyColorMode (Settings.colorMode (SettingsStore.value settings'))
             (rootClasses st))).

Definition handleCancelSettings (st : State) : State :=
  mkState (settingsStore st) (timeStore st) false (rootClasses st).

(** The click on the Settings button. *)
Definition openSettings (st : State) : State :=
  mkState (settingsStore st) (timeStore st) true (rootClasses st).

(** The callback given to [onDestroy]. *)
Definition unmount (st : State) : State :=
  mkState (settingsStore st)
    (MercurialTime.exec MercurialTime.destroy (timeStore st))
    (isModalOpen st) (rootClasses st).

(** The host presents a frame to the time store. *)
Definition frame (st : State) : State :=
  mkState (settingsStore st)
    (MercurialTime.step MercurialTime.Frame (timeStore st))
    (isModalOpen st) (rootClasses st).

(** The states of the component: it is mounted on a settings store just
    created, and then handles clicks, the dialog's events and frames. *)
Inductive reachable : State -> Prop :=
| reachable_mount ls settings0 h classList :
    SettingsStore.createSettingsStore parseFloat JSON_parse ls = Normal settings0 ->
    MercurialTime.frameRequests h = [] ->
    reachable (mount h classList settings0)
| reachable_reset st : reachable st -> reachable (handleReset st)
| reachable_open st : reachable st -> reachable (openSettings st)
| reachable_cancel st : reachable st -> reachable (handleCancelSettings st)
| reachable_frame st : reachable st -> reachable (frame st)
| reachable_unmount st : reachable st -> reachable (unmount st)
| reachable_apply newSettings st st' :
    reachable st -> handleApplySettings newSettings st = Normal st' ->
    reachable st'.

(** *** Equality of numbers *)

Lemma eqb_refl_number (x : float) : is_nan x = false -> (x =? x) = true.
Proof. unfold is_nan. now destruct (x =? x). Qed.

Lemma eqb_symmetric (x y : float) : (x =? y) = (y =? x).
Proof.
  rewrite !FloatAxioms.eqb_spec. unfold SFeqb.
  rewrite (Binary64.SFcompare_antisym (Prim2SF x) (Prim2SF y)).
  now destruct (SFcompare (Prim2SF x) (Prim2SF y)) as [[]|].
Qed.

Lemma eqb_transitive (x y z : float) :
  (x =? y) = true -> (y =? z) = true -> (x =? z) = true.
Proof.
  rewrite !FloatAxioms.eqb_spec. unfold SFeqb.
  destruct (SFcompare (Prim2SF x) (Prim2SF y)) as [[]|] eqn:Hxy; try discriminate.
  destruct (SFcompare (Prim2SF y) (Prim2SF z)) as [[]|] eqn:Hyz; try discriminate.
  intros _ _.
  apply Binary64.SFcompare_Eq_inv in Hxy as [Exy|(sx & sy & Ex & Ey)].
  - now rewrite Exy, Hyz.
  - apply Binary64.SFcompare_Eq_inv in Hyz as [Eyz|(sy' & sz & Ey' & Ez)].
    + now rewrite <- Eyz, Ex, Ey.
    + now rewrite Ex, Ez.
Qed.

Lemma eqb_not_nan (x y : float) :
  (x =? y) = true -> is_nan x = false /\ is_nan y = false.
Proof.
  rewrite !Binary64.is_nan_SF, FloatAxioms.eqb_spec. unfold SFeqb.
  destruct (SFcompare (Prim2SF x) (Prim2SF y)) eqn:Hc; [|discriminate].
  intros _.
  destruct (Binary64.SFnan (Prim2SF x)) eqn:Hx, (Binary64.SFnan (Prim2SF y)) eqn:Hy;
    auto;
    assert (SFcompare (Prim2SF x) (Prim2SF y) = None)
      by (apply Binary64.SFcompare_None; auto);
    congruence.
Qed.

Lemma sameNumber_refl (x : float) : sameNumber x x = true.
Proof.
  unfold sameNumber. destruct (is_nan x) eqn:Hx; simpl.
  - now rewrite orb_true_r.
  - now rewrite eqb_refl_number.
Qed.

(** *** What the component keeps *)

(** The time store is one that [createMercurialTimeStore] and its
    operations produce, and its rate is the rate of the settings. *)
Definition inSync (st : State) : Prop :=
  MercurialTime.reachable (timeStore st)
  /\ sameNumber (MercurialTime.rate (MercurialTime.vars (timeStore st)))
       (Settings.rate (SettingsStore.value (settingsStore st))) = true.

Lemma snapshot_rate (tw : MercurialTime.World) :
  MercurialTime.reachable tw ->
  MercurialTimeState.rate (MercurialTime.get tw)
  = MercurialTime.rate (MercurialTime.vars tw).
Proof.
  intros Hw. unfold MercurialTime.get.
  now rewrite (MercurialTime.inv_value tw (MercurialTime.reachable_Inv tw Hw)).
Qed.

Lemma handleApplySettings_result (newSettings : Settings.t) (st : State) :
  exists ls',
    handleApplySettings newSettings st =
    Normal
      (mkState
         (SettingsStore.mkWorld newSettings
            (SettingsStore.published (settingsStore st) ++ [newSettings]) ls')
         (if strictNotEqual (Settings.rate newSettings)
               (MercurialTimeState.rate (MercurialTime.get (timeStore st)))
          then MercurialTime.step
                 (MercurialTime.CallSetRate (Settings.rate newSettings))
                 (timeStore st)
          else timeStore st)
         false
         (applyColorMode (Settings.colorMode newSettings) (rootClasses st))).
Proof.
  unfold handleApplySettings.
  destruct (SettingsStore.set_result JSON_stringify newSettings
              (settingsStore st)) as (ls' & ->).
  now exists ls'.
Qed.

Lemma reachable_inSync (st : State) : reachable st -> inSync st.
Proof.
  induction 1 as [ls settings0 h classList Hcreate Hq
                 |st _ [Hw Hs]|st _ IH|st _ IH|st _ [Hw Hs]|st _ [Hw Hs]
                 |newSettings st st' _ [Hw Hs] Happly].
  - split; [now apply MercurialTime.reachable_create|].
    unfold mount. cbn [timeStore settingsStore].
    rewrite MercurialTime.create_world. simpl. apply sameNumber_refl.
  - split; [exact (MercurialTime.reachable_step MercurialTime.CallReset _ Hw)|].
    unfold handleReset. cbn [timeStore settingsStore].
    change (MercurialTime.exec MercurialTime.reset (timeStore st))
      with (MercurialTime.step MercurialTime.CallReset (timeStore st)).
    now rewrite TimeStoreProperties.step_keeps_rate.
  - exact IH.
  - exact IH.
  - split; [exact (MercurialTime.reachable_step MercurialTime.Frame _ Hw)|].
    unfold frame. cbn [timeStore settingsStore].
    now rewrite TimeStoreProperties.step_keeps_rate.
  - split; [exact (MercurialTime.reachable_step MercurialTime.CallDestroy _ Hw)|].
    unfold unmount. cbn [timeStore settingsStore].
    change (MercurialTime.exec MercurialTime.destroy (timeStore st))
      with (MercurialTime.step MercurialTime.CallDestroy (timeStore st)).
    now rewrite TimeStoreProperties.step_keeps_rate.
  - destruct (handleApplySettings_result newSettings st) as (ls' & E).
    rewrite E in Happly. injection Happly as <-.
    rewrite (snapshot_rate _ Hw). unfold strictNotEqual, inSync.
    cbn [timeStore settingsStore SettingsStore.value].
    destruct (Settings.rate newSettings
              =? MercurialTime.rate (MercurialTime.vars (timeStore st))) eqn:Heq;
      cbn [negb].
    + split; [exact Hw|]. unfold sameNumber.
      now rewrite (eqb_symmetric
                     (MercurialTime.rate (MercurialTime.vars (timeStore st)))
                     (Settings.rate newSettings)), Heq.
    + split.
      * exact (MercurialTime.reachable_step
                 (MercurialTime.CallSetRate (Settings.rate newSettings)) _ Hw).
      * destruct (timeStore st) as [v s h].
        exact (sameNumber_refl (Settings.rate newSettings)).
Qed.

(** X16. The rate the time store runs at is the rate of the settings, in
    every state of the component: what the header shows as [Rate] is the
    speed of the clock. (The two are the same number; a NaN is the same as a
    NaN.) *)
Theorem engine_rate_is_settings_rate (st : State) :
  reachable st ->
  sameNumber (MercurialTimeState.rate (MercurialTime.get (timeStore st)))
    (Settings.rate (SettingsStore.value (settingsStore st))) = true
  /\ MercurialTimeState.rate (MercurialTime.get (timeStore st))
     = MercurialTime.rate (MercurialTime.vars (timeStore st)).
Proof.
  intros Hst. destruct (reachable_inSync st Hst) as [Hw Hs].
  rewrite (snapshot_rate _ Hw). now split.
Qed.

(** X17. Applying settings re-anchors the clock exactly when the rate
    changes: with a rate equal to the present one the time store is left as
    it is (no reset of the displayed time, nothing published), otherwise
    [setRate] is called with the new rate. Either way the settings become
    the new ones and the dialog closes, and nothing is thrown. *)
Theorem apply_resets_clock_iff_rate_changes (newSettings : Settings.t) (st : State) :
  reachable st ->
  exists st',
    handleApplySettings newSettings st = Normal st'
    /\ SettingsStore.value (settingsStore st') = newSettings
    /\ isModalOpen st' = false
    /\ ((Settings.rate newSettings
         =? Settings.rate (SettingsStore.value (settingsStore st))) = true ->
        timeStore st' = timeStore st)
    /\ ((Settings.rate newSettings
         =? Settings.rate (SettingsStore.value (settingsStore st))) = false ->
        timeStore st' =
        MercurialTime.step
          (MercurialTime.CallSetRate (Settings.rate newSettings)) (timeStore st)).
Proof.
  intros Hst. destruct (reachable_inSync st Hst) as [Hw Hs].
  destruct (handleApplySettings_result newSettings st) as (ls' & E).
  eexists. split; [exact E|]. cbn [settingsStore SettingsStore.value isModalOpen timeStore].
  split; [reflexivity|]. split; [reflexivity|].
  rewrite (snapshot_rate _ Hw). unfold strictNotEqual.
  unfold sameNumber in Hs. apply orb_prop in Hs.
  split.
  - intros Heq. destruct (eqb_not_nan _ _ Heq) as [_ Hnan].
    destruct Hs as [Hs|Hs]; [|rewrite Hnan, andb_false_r in Hs; discriminate].
    rewrite eqb_symmetric in Hs.
    now rewrite (eqb_transitive _ _ _ Heq Hs).
  - intros Hne.
    destruct (Settings.rate newSettings
              =? MercurialTime.rate (MercurialTime.vars (timeStore st))) eqn:Heq;
      [|reflexivity].
    destruct Hs as [Hs|Hs].
    + now rewrite (eqb_transitive _ _ _ Heq Hs) in Hne.
    + apply andb_prop in Hs as [Hs _].
      destruct (eqb_not_nan _ _ Heq) as [_ Hnan]. congruence.
Qed.

(** X18. The dialog cannot change the theme, and [Apply] on a dialog whose
    inputs were not touched dispatches the settings it was opened with. On
    the root component, for a rate that is a number, that changes neither
    the value of the settings nor the time store: the clock is not reset. *)
Theorem apply_unedited_changes_nothing (st : State) :
  reachable st ->
  is_nan (Settings.rate (SettingsStore.value (settingsStore st))) = false ->
  (forall m, Settings.theme (handleApply m) = Settings.theme (settings m))
  /\ handleApply (openModal (SettingsStore.value (settingsStore st)))
     = SettingsStore.value (settingsStore st)
  /\ exists st',
       handleApplySettings
         (handleApply (openModal (SettingsStore.value (settingsStore st)))) st
       = Normal st'
       /\ SettingsStore.value (settingsStore st')
          = SettingsStore.value (settingsStore st)
       /\ timeStore st' = timeStore st
       /\ isModalOpen st' = false.
Proof.
  intros Hst Hnan.
  assert (Hsame : handleApply (openModal (SettingsStore.value (settingsStore st)))
                  = SettingsStore.value (settingsStore st))
    by now destruct (SettingsStore.value (settingsStore st)).
  split; [reflexivity|]. split; [exact Hsame|]. rewrite Hsame.
  destruct (reachable_inSync st Hst) as [Hw Hs].
  destruct (handleApplySettings_result
              (SettingsStore.value (settingsStore st)) st) as (ls' & E).
  eexists. split; [exact E|].
  cbn [settingsStore SettingsStore.value isModalOpen timeStore].
  split; [reflexivity|]. split; [|reflexivity].
  rewrite (snapshot_rate _ Hw). unfold strictNotEqual.
  unfold sameNumber in Hs. rewrite Hnan, andb_false_r, orb_false_r in Hs.
  now rewrite eqb_symmetric, Hs.
Qed.

End WithHost.

(** *** On the sample host *)

Definition sampleApp : State :=
  mount MercurialTime.steadyHost ∅
    (SettingsStore.mkWorld DEFAULT_SETTINGS [] emptyStorage).

Lemma sampleApp_reachable :
  reachable sampleParseFloat sampleParse sampleStringify sampleApp.
Proof. now apply reachable_mount with emptyStorage. Qed.

Lemma engine_rate_is_settings_rate_witness :
  reachable sampleParseFloat sampleParse sampleStringify
    (frame (handleReset (openSettings sampleApp)))
  /\ sameNumber
       (MercurialTimeState.rate
          (MercurialTime.get (timeStore (frame (handleReset (openSettings sampleApp))))))
       (Settings.rate
          (SettingsStore.value
             (settingsStore (frame (handleReset (openSettings sampleApp))))))
     = true.
Proof.
  assert (H : reachable sampleParseFloat sampleParse sampleStringify
                (frame (handleReset (openSettings sampleApp)))).
  { apply reachable_frame, reachable_reset, reachable_open.
    exact sampleApp_reachable. }
  split; [exact H|].
  exact (proj1 (engine_rate_is_settings_rate sampleParseFloat sampleParse
                  sampleStringify _ H)).
Defined.

Lemma apply_resets_clock_iff_rate_changes_witness :
  reachable sampleParseFloat sampleParse sampleStringify sampleApp
  /\ exists st',
       handleApplySettings sampleStringify sampleSettings sampleApp = Normal st'
       /\ timeStore st' =
          MercurialTime.step (MercurialTime.CallSetRate 1.5) (timeStore sampleApp).
Proof.
  split; [exact sampleApp_reachable|].
  destruct (apply_resets_clock_iff_rate_changes sampleParseFloat sampleParse
              sampleStringify sampleSettings sampleApp sampleApp_reachable)
    as (st' & E & _ & _ & _ & Hchanged).
  exists st'. split; [exact E|]. exact (Hchanged eq_refl).
Defined.

Lemma apply_unedited_changes_nothing_witness :
  reachable sampleParseFloat sampleParse sampleStringify sampleApp
  /\ is_nan (Settings.rate (SettingsStore.value (settingsStore sampleApp))) = false
  /\ exists st',
       handleApplySettings sampleStringify
         (handleApply (openModal (SettingsStore.value (settingsStore sampleApp))))
         sampleApp
       = Normal st'
       /\ timeStore st' = timeStore sampleApp.
Proof.
  split; [exact sampleApp_reachable|]. split; [reflexivity|].
  destruct (apply_unedited_changes_nothing sampleParseFloat sampleParse
              sampleStringify sampleApp sampleApp_reachable eq_refl)
    as (_ & _ & st' & E & _ & Hsame & _).
  exists st'. split; [exact E|]. exact Hsame.
Defined.

End App.

(** ** The classic clock face (ClassicClock.svelte)

    The component turns the fields of the [Date] it is given into the
    angles of the hands, and lays out sixty ticks and twelve numbers. The
    fields ([getHours()], [getMinutes()], ...) are whole numbers the host
    computes in its time zone: they are the inputs here. [Math.cos] and
    [Math.sin] are the host's. *)

Module ClassicClock.

Definition SIZE : float := 300.
Definition CENTER : float := SIZE / 2.
Definition RADIUS : float := SIZE / 2 - 20.

Definition getAngle (value max : float) : float := (value / max) * 360 - 90.

(** A whole number as a [number]. *)
Definition num (k : nat) : float := MercurialTime.ofNat k.

(** The angles of the hands, from [seconds], [milliseconds], [minutes] and
    [time.getHours()]; [% 12] on a whole number of hours. *)
Definition secondAngle (seconds milliseconds : nat) : float :=
  getAngle (num seconds + num milliseconds / 1000) 60.

Definition minuteAngle (minutes seconds : nat) : float :=
  getAngle (num minutes + num seconds / 60) 60.

Definition hourAngle (getHours minutes : nat) : float :=
  getAngle (num (getHours mod 12) + num minutes / 60) 12.

Record Point : Type := mkPoint { x : float; y : float }.

Definition Math_PI : float := 0x1.921fb54442d18p+1.

Section WithMath.

Context (Math_cos Math_sin : float -> float).

Definition polarToCartesian (angle radius : float) : Point :=
  let rad := (angle * Math_PI) / 180 in
  mkPoint (CENTER + radius * Math_cos rad) (CENTER + radius * Math_sin rad).

Record Tick : Type := mkTick {
  id : nat;
  inner : Point;
  outer : Point;
  isMajor : bool
}.

Definition tickAt (i : nat) : Tick :=
  let angle := getAngle (num i) 60 in
  let isMajor := Nat.eqb (i mod 5) 0 in
  let outerRadius := RADIUS - 5 in
  let innerRadius := if isMajor then RADIUS - 20 else RADIUS - 12 in
  let outer := polarToCartesian angle outerRadius in
  let inner := polarToCartesian angle innerRadius in
  mkTick i inner outer isMajor.

Definition ticks : list Tick := map tickAt (seq 0 60).

Record Numeral : Type := mkNumeral { numeral : nat; position : Point }.

Definition numeralAt (i : nat) : Numeral :=
  let n := S i in
  let angle := getAngle (num n) 12 in
  let pos := polarToCartesian angle (RADIUS - 38) in
  mkNumeral n pos.

Definition numbers : list Numeral := map numeralAt (seq 0 12).

End WithMath.

(** *** The order of numbers is transitive *)

Lemma SFcompare_Lt_trans (a b c : spec_float) :
  SFcompare a b = Some Lt -> SFcompare b c = Some Lt -> SFcompare a c = Some Lt.
Proof.
  destruct a as [sa| sa| |sa ma ea], b as [sb| sb| |sb mb eb],
    c as [sc| sc| |sc mc ec]; simpl; try discriminate;
    try (destruct sa; discriminate); try (destruct sb; discriminate);
    try (destruct sc; discriminate);
    try (destruct sa, sb; discriminate); try (destruct sb, sc; discriminate);
    try (destruct sa, sb, sc; (discriminate || reflexivity)).
  change (Pos.compare_cont Eq ma mb) with (Pos.compare ma mb).
  change (Pos.compare_cont Eq mb mc) with (Pos.compare mb mc).
  change (Pos.compare_cont Eq ma mc) with (Pos.compare ma mc).
  destruct sa, sb, sc; try discriminate; try reflexivity;
    intros [= H1] [= H2]; f_equal;
    destruct (Z.compare_spec ea eb), (Z.compare_spec eb ec),
      (Z.compare_spec ea ec);
    try discriminate; try lia; try reflexivity;
    destruct (Pos.compare_spec ma mb), (Pos.compare_spec mb mc),
      (Pos.compare_spec ma mc);
    try discriminate; try lia; try reflexivity.
Qed.

Lemma ltb_transitive (a b c : float) :
  (a <? b) = true -> (b <? c) = true -> (a <? c) = true.
Proof.
  rewrite !FloatAxioms.ltb_spec. unfold SFltb.
  destruct (SFcompare (Prim2SF a) (Prim2SF b)) as [[]|] eqn:Hab; try discriminate.
  destruct (SFcompare (Prim2SF b) (Prim2SF c)) as [[]|] eqn:Hbc; try discriminate.
  intros _ _. now rewrite (SFcompare_Lt_trans _ _ _ Hab Hbc).
Qed.

(** *** A hand that advances step by step advances

    [f a b] is the angle at [a] units and [b] subunits, [b < M]. When each
    subunit moves the hand forward, within a unit and from the last subunit
    of a unit to the next unit, the angle grows with the time. *)

Section Steps.

Context (f : nat -> nat -> float) (N M : nat).

Definition stepsWithin : bool :=
  forallb (fun a => forallb (fun b => f a b <? f a (S b)) (seq 0 (pred M)))
    (seq 0 N).

Definition stepsAcross : bool :=
  forallb (fun a => f a (pred M) <? f (S a) 0) (seq 0 (pred N)).

Hypothesis within : stepsWithin = true.
Hypothesis across : stepsAcross = true.

Lemma step_within (a b : nat) :
  (a < N)%nat -> (S b < M)%nat -> (f a b <? f a (S b)) = true.
Proof.
  intros Ha Hb. unfold stepsWithin in within.
  rewrite List.forallb_forall in within.
  specialize (within a ltac:(apply List.in_seq; lia)).
  rewrite List.forallb_forall in within.
  apply within, List.in_seq. lia.
Qed.

Lemma step_across (a : nat) :
  (S a < N)%nat -> (f a (pred M) <? f (S a) 0) = true.
Proof.
  intros Ha. unfold stepsAcross in across.
  rewrite List.forallb_forall in across.
  apply across, List.in_seq. lia.
Qed.

Lemma grows_within (a b d : nat) :
  (a < N)%nat -> (b + S d < M)%nat -> (f a b <? f a (b + S d)) = true.
Proof.
  intros Ha. induction d as [|d IH]; intros Hb.
  - rewrite Nat.add_1_r. apply step_within; lia.
  - apply ltb_transitive with (f a (b + S d)); [apply IH; lia|].
    replace (b + S (S d))%nat with (S (b + S d)) by lia.
    apply step_within; lia.
Qed.

Lemma grows_to_next (a b : nat) :
  (S a < N)%nat -> (b < M)%nat -> (f a b <? f (S a) 0) = true.
Proof.
  intros Ha Hb. destruct (Nat.eq_dec b (pred M)) as [->|Hne].
  - now apply step_across.
  - apply ltb_transitive with (f a (pred M)); [|now apply step_across].
    replace (pred M) with (b + S (pred M - S b))%nat by lia.
    apply grows_within; lia.
Qed.

Lemma grows_across (a d b : nat) :
  (a + S d < N)%nat -> (b < M)%nat -> (f a b <? f (a + S d) 0) = true.
Proof.
  induction d as [|d IH]; intros Ha Hb.
  - rewrite Nat.add_1_r. apply grows_to_next; lia.
  - apply ltb_transitive with (f (a + S d) 0); [apply IH; lia|].
    replace (a + S (S d))%nat with (S (a + S d)) by lia.
    apply grows_to_next; lia.
Qed.

Lemma grows (a1 b1 a2 b2 : nat) :
  (a2 < N)%nat -> (b1 < M)%nat -> (b2 < M)%nat ->
  (a1 * M + b1 < a2 * M + b2)%nat ->
  (f a1 b1 <? f a2 b2) = true.
Proof.
  intros Ha2 Hb1 Hb2 Hlt.
  destruct (Nat.lt_trichotomy a1 a2) as [Ha|[->|Ha]].
  - assert (H0 : (f a1 b1 <? f a2 0) = true).
    { replace a2 with (a1 + S (a2 - S a1))%nat by lia.
      apply grows_across; lia. }
    destruct b2 as [|b2]; [exact H0|].
    apply ltb_transitive with (f a2 0); [exact H0|].
    apply (grows_within a2 0 b2); lia.
  - replace b2 with (b1 + S (b2 - S b1))%nat by lia.
    apply grows_within; lia.
  - exfalso. nia.
Qed.

End Steps.

(** The range of a hand: every angle lies in [lo, hi). *)
Definition anglesWithin (f : nat -> nat -> float) (N M : nat) (lo hi : float)
    : bool :=
  forallb (fun a => forallb (fun b => (lo <=? f a b) && (f a b <? hi)) (seq 0 M))
    (seq 0 N).

Lemma anglesWithin_spec (f : nat -> nat -> float) (N M : nat) (lo hi : float) :
  anglesWithin f N M lo hi = true ->
  forall a b, (a < N)%nat -> (b < M)%nat ->
    (lo <=? f a b) = true /\ (f a b <? hi) = true.
Proof.
  unfold anglesWithin. rewrite List.forallb_forall. intros H a b Ha Hb.
  specialize (H a ltac:(apply List.in_seq; lia)).
  rewrite List.forallb_forall in H.
  specialize (H b ltac:(apply List.in_seq; lia)).
  now apply andb_prop in H.
Qed.

(** The hour hand reads the hours modulo twelve, so one table serves the
    morning and the afternoon. *)
Definition hourAngle12 (hours minutes : nat) : float :=
  getAngle (num hours + num minutes / 60) 12.

Lemma hourAngle_mod (getHours minutes : nat) :
  hourAngle getHours minutes = hourAngle12 (getHours mod 12) minutes.
Proof. reflexivity. Qed.

(** X19. Every hand stays within one turn starting at twelve o'clock: for
    all fields a [Date] can give ([getHours()] below 24, minutes and seconds
    below 60, milliseconds below 1000), each of the three angles is at least
    -90 and below 270 degrees; a hand at zero points to -90. *)
Theorem hands_within_one_turn (getHours minutes seconds milliseconds : nat) :
  (getHours < 24)%nat -> (minutes < 60)%nat -> (seconds < 60)%nat ->
  (milliseconds < 1000)%nat ->
  ((-90 <=? secondAngle seconds milliseconds) = true
   /\ (secondAngle seconds milliseconds <? 270) = true)
  /\ ((-90 <=? minuteAngle minutes seconds) = true
      /\ (minuteAngle minutes seconds <? 270) = true)
  /\ ((-90 <=? hourAngle getHours minutes) = true
      /\ (hourAngle getHours minutes <? 270) = true)
  /\ secondAngle 0 0 = -90 /\ minuteAngle 0 0 = -90 /\ hourAngle 0 0 = -90
  /\ hourAngle 12 0 = -90.
Proof.
  intros Hh Hm Hs Hms.
  assert (Bs : anglesWithin secondAngle 60 1000 (-90) 270 = true)
    by (vm_compute; reflexivity).
  assert (Bm : anglesWithin minuteAngle 60 60 (-90) 270 = true)
    by (vm_compute; reflexivity).
  assert (Bh : anglesWithin hourAngle12 12 60 (-90) 270 = true)
    by (vm_compute; reflexivity).
  split; [exact (anglesWithin_spec _ _ _ _ _ Bs seconds milliseconds Hs Hms)|].
  split; [exact (anglesWithin_spec _ _ _ _ _ Bm minutes seconds Hm Hs)|].
  split.
  - rewrite hourAngle_mod.
    apply (anglesWithin_spec _ _ _ _ _ Bh); [|exact Hm].
    apply Nat.mod_upper_bound. discriminate.
  - repeat split; reflexivity.
Qed.

Lemma hands_within_one_turn_witness :
  (23 < 24)%nat /\ (59 < 60)%nat /\ (59 < 1000)%nat
  /\ (hourAngle 23 59 <? 270) = true
  /\ (secondAngle 59 59 <? 270) = true.
Proof.
  assert (H24 : (23 < 24)%nat) by lia.
  assert (H60 : (59 < 60)%nat) by lia.
  assert (H1000 : (59 < 1000)%nat) by lia.
  split; [exact H24|]. split; [exact H60|]. split; [exact H1000|].
  destruct (hands_within_one_turn 23 59 59 59 H24 H60 H60 H1000)
    as ((_ & Hs) & _ & (_ & Hh) & _).
  split; [exact Hh|exact Hs].
Defined.

(** X20. No hand moves backwards: of two instants within the same minute
    the later has the larger second angle, to the millisecond; within the
    same hour the later has the larger minute angle, to the second; and
    within the same twelve hours the later has the larger hour angle, to the
    minute. *)
Theorem hands_move_forward (a1 b1 a2 b2 : nat) :
  ((a2 < 60)%nat -> (b1 < 1000)%nat -> (b2 < 1000)%nat ->
   (a1 * 1000 + b1 < a2 * 1000 + b2)%nat ->
   (secondAngle a1 b1 <? secondAngle a2 b2) = true)
  /\ ((a2 < 60)%nat -> (b1 < 60)%nat -> (b2 < 60)%nat ->
      (a1 * 60 + b1 < a2 * 60 + b2)%nat ->
      (minuteAngle a1 b1 <? minuteAngle a2 b2) = true)
  /\ ((a2 < 12)%nat -> (b1 < 60)%nat -> (b2 < 60)%nat ->
      (a1 * 60 + b1 < a2 * 60 + b2)%nat ->
      (hourAngle a1 b1 <? hourAngle a2 b2) = true).
Proof.
  split; [|split].
  - apply (grows secondAngle 60 1000); vm_compute; reflexivity.
  - apply (grows minuteAngle 60 60); vm_compute; reflexivity.
  - intros Ha2 Hb1 Hb2 Hlt.
    assert (Ha1 : (a1 < 12)%nat) by nia.
    rewrite !hourAngle_mod, !Nat.mod_small by assumption.
    apply (grows hourAngle12 12 60); try assumption; vm_compute; reflexivity.
Qed.

Lemma hands_move_forward_witness :
  (30 < 60)%nat /\ (999 < 1000)%nat /\ (0 < 1000)%nat
  /\ (29 * 1000 + 999 < 30 * 1000 + 0)%nat
  /\ (secondAngle 29 999 <? secondAngle 30 0) = true.
Proof.
  assert (H1 : (30 < 60)%nat) by lia.
  assert (H2 : (999 < 1000)%nat) by lia.
  assert (H3 : (0 < 1000)%nat) by lia.
  assert (H4 : (29 * 1000 + 999 < 30 * 1000 + 0)%nat) by lia.
  split; [exact H1|]. split; [exact H2|]. split; [exact H3|]. split; [exact H4|].
  exact (proj1 (hands_move_forward 29 999 30 0) H1 H2 H3 H4).
Defined.

Section Layout.

Context (Math_cos Math_sin : float -> float).

(** The numbers 1 to 11 have the angle of the tick five times as far. *)
Lemma numeral_angle (n : nat) :
  (1 <= n <= 11)%nat -> getAngle (num n) 12 = getAngle (num (5 * n)) 60.
Proof.
  intros [H1 H11].
  do 12 (destruct n as [|n]; [try lia; reflexivity|]). lia.
Qed.

(** X21. The face has sixty ticks, the twelve at the multiples of five
    major, and twelve numbers, 1 to 12. Each number from 1 to 11 lies on the
    ray of the major tick five times as far round: the number and the two
    ends of the tick are the centre plus their radius (92, 110 and 125)
    times one and the same direction, whatever [Math.cos] and [Math.sin]
    compute. *)
Theorem numerals_on_major_ticks (n : nat) :
  (1 <= n <= 11)%nat ->
  length (ticks Math_cos Math_sin) = 60%nat
  /\ length (filter (fun t => isMajor t = true) (ticks Math_cos Math_sin)) = 12%nat
  /\ map numeral (numbers Math_cos Math_sin) = seq 1 12
  /\ ticks Math_cos Math_sin !! (5 * n)%nat = Some (tickAt Math_cos Math_sin (5 * n))
  /\ numbers Math_cos Math_sin !! pred n = Some (numeralAt Math_cos Math_sin (pred n))
  /\ numeral (numeralAt Math_cos Math_sin (pred n)) = n
  /\ isMajor (tickAt Math_cos Math_sin (5 * n)) = true
  /\ exists c s : float,
       position (numeralAt Math_cos Math_sin (pred n))
         = mkPoint (150 + 92 * c) (150 + 92 * s)
       /\ inner (tickAt Math_cos Math_sin (5 * n))
          = mkPoint (150 + 110 * c) (150 + 110 * s)
       /\ outer (tickAt Math_cos Math_sin (5 * n))
          = mkPoint (150 + 125 * c) (150 + 125 * s).
Proof.
  intros Hn.
  split; [reflexivity|]. split; [reflexivity|]. split; [reflexivity|].
  assert (Hmajor : Nat.eqb ((5 * n) mod 5) 0 = true).
  { rewrite Nat.mul_comm, Nat.Div0.mod_mul. reflexivity. }
  split.
  { unfold ticks. rewrite list_lookup_fmap, lookup_seq_lt by lia. reflexivity. }
  split.
  { unfold numbers. rewrite list_lookup_fmap, lookup_seq_lt by lia. reflexivity. }
  split; [simpl; lia|]. split; [exact Hmajor|].
  exists (Math_cos (getAngle (num n) 12 * Math_PI / 180)).
  exists (Math_sin (getAngle (num n) 12 * Math_PI / 180)).
  unfold numeralAt, tickAt, polarToCartesian.
  cbn [position inner outer]. rewrite Hmajor.
  replace (S (pred n)) with n by lia.
  rewrite <- (numeral_angle n Hn).
  repeat split; reflexivity.
Qed.

End Layout.

Lemma numerals_on_major_ticks_witness :
  (1 <= 3 <= 11)%nat
  /\ isMajor (tickAt (fun _ => 1) (fun _ => 0) 15) = true
  /\ numeral (numeralAt (fun _ => 1) (fun _ => 0) 2) = 3%nat.
Proof.
  assert (H : (1 <= 3 <= 11)%nat) by lia.
  split; [exact H|].
  destruct (numerals_on_major_ticks (fun _ => 1) (fun _ => 0) 3 H)
    as (_ & _ & _ & _ & _ & Hnum & Hmajor & _).
  split; [exact Hmajor|exact Hnum].
Defined.

End ClassicClock.

(** ** The React prototype of the clock (MercurialClock)

    The prototype keeps its settings in component state and edits them in
    a dialog through temporary copies. A state here is what one render
    sees; a handler gives the state of the next render. The clock is read as
    in the time store. *)

Module Prototype.

Record State : Type := mkState {
  rate : float;
  tempRate : string;
  isModalOpen : bool;
  currentTime : JS.Date;
  showSecondHand : bool;
  showNumbers : bool;
  showDigitalTime : bool;
  tempShowSecondHand : bool;
  tempShowNumbers : bool;
  tempShowDigitalTime : bool;
  startTime : float;
  startDate : JS.Date;
  clock : nat -> float;
  clockReads : nat
}.

(** The first render: [useState] and [useRef] with their initial values. *)
Definition initial (clock : nat -> float) : State :=
  mkState 1.1 "1.1" false (JS.Date_new (clock 0%nat))
    false true false false true false
    (clock 1%nat) (JS.Date_new (clock 2%nat)) clock 3.

Section WithHost.

Context (parseFloat : string -> float).
Context (Number_toString : float -> string).

Set Default Proof Using "Type".

Definition handleReset (st : State) : State :=
  let now := JS.Date_new (clock st (clockReads st)) in
  mkState (rate st) (tempRate st) (isModalOpen st) now
    (showSecondHand st) (showNumbers st) (showDigitalTime st)
    (tempShowSecondHand st) (tempShowNumbers st) (tempShowDigitalTime st)
    (clock st (S (clockReads st))) now (clock st) (S (S (clockReads st))).

Definition handleRateChange (st : State) : State :=
  let newRate := parseFloat (tempRate st) in
  if negb (is_nan newRate) && (1 <=? newRate) then
    let now := JS.Date_new (clock st (clockReads st)) in
    mkState newRate (tempRate st) false (currentTime st)
      (tempShowSecondHand st) (tempShowNumbers st) (tempShowDigitalTime st)
      (tempShowSecondHand st) (tempShowNumbers st) (tempShowDigitalTime st)
      (clock st (S (clockReads st))) now (clock st) (S (S (clockReads st)))
  else st.

Definition handleOpenModal (st : State) : State :=
  mkState (rate st) (Number_toString (rate st)) true (currentTime st)
    (showSecondHand st) (showNumbers st) (showDigitalTime st)
    (showSecondHand st) (showNumbers st) (showDigitalTime st)
    (startTime st) (startDate st) (clock st) (clockReads st).

(** One animation frame. Requesting the next frame, and cancelling it when
    the component goes, is between the effect and the host and touches none
    of the fields here. *)
Definition updateTime (st : State) : State :=
  let now := clock st (clockReads st) in
  let elapsedMs := now - startTime st in
  let adjustedElapsedMs := elapsedMs * rate st in
  let adjustedTime :=
    JS.Date_new (JS.getTime (startDate st) + adjustedElapsedMs) in
  mkState (rate st) (tempRate st) (isModalOpen st) adjustedTime
    (showSecondHand st) (showNumbers st) (showDigitalTime st)
    (tempShowSecondHand st) (tempShowNumbers st) (tempShowDigitalTime st)
    (startTime st) (startDate st) (clock st) (S (clockReads st)).

(** The inputs of the dialog and its Cancel button. *)
Inductive Input : Type :=
| TypeRate (text : string)
| CheckSecondHand (checked : bool)
| CheckNumbers (checked : bool)
| CheckDigitalTime (checked : bool)
| Cancel.

Definition handleInput (i : Input) (st : State) : State :=
  match i with
  | TypeRate text =>
      mkState (rate st) text (isModalOpen st) (currentTime st)
        (showSecondHand st) (showNumbers st) (showDigitalTime st)
        (tempShowSecondHand st) (tempShowNumbers st) (tempShowDigitalTime st)
        (startTime st) (startDate st) (clock st) (clockReads st)
  | CheckSecondHand b =>
      mkState (rate st) (tempRate st) (isModalOpen st) (currentTime st)
        (showSecondHand st) (showNumbers st) (showDigitalTime st)
        b (tempShowNumbers st) (tempShowDigitalTime st)
        (startTime st) (startDate st) (clock st) (clockReads st)
  | CheckNumbers b =>
      mkState (rate st) (tempRate st) (isModalOpen st) (currentTime st)
        (showSecondHand st) (showNumbers st) (showDigitalTime st)
        (tempShowSecondHand st) b (tempShowDigitalTime st)
        (startTime st) (startDate st) (clock st) (clockReads st)
  | CheckDigitalTime b =>
      mkState (rate st) (tempRate st) (isModalOpen st) (currentTime st)
        (showSecondHand st) (showNumbers st) (showDigitalTime st)
        (tempShowSecondHand st) (tempShowNumbers st) b
        (startTime st) (startDate st) (clock st) (clockReads st)
  | Cancel =>
      mkState (rate st) (tempRate st) false (currentTime st)
        (showSecondHand st) (showNumbers st) (showDigitalTime st)
        (tempShowSecondHand st) (tempShowNumbers st) (tempShowDigitalTime st)
        (startTime st) (startDate st) (clock st) (clockReads st)
  end.

Inductive reachable : State -> Prop :=
| reachable_initial clock : reachable (initial clock)
| reachable_frame st : reachable st -> reachable (updateTime st)
| reachable_reset st : reachable st -> reachable (handleReset st)
| reachable_apply st : reachable st -> reachable (handleRateChange st)
| reachable_open st : reachable st -> reachable (handleOpenModal st)
| reachable_input i st : reachable st -> reachable (handleInput i st).

(** X22. The prototype runs only at rates of at least 1: whatever is typed
    and clicked and however many frames pass, its rate is a number not
    below 1. [handleRateChange] with a text that [parseFloat] reads as NaN
    or as a number below 1 changes nothing, the dialog staying as it is;
    with a number of at least 1 it takes that rate, applies the three
    display options, restarts the elapsed time and closes the dialog.
    Typing, ticking the boxes and Cancel change neither the rate nor the
    display options. *)
Theorem prototype_rate_at_least_one (st : State) :
  reachable st ->
  (1 <=? rate st) = true
  /\ (is_nan (parseFloat (tempRate st)) = true -> handleRateChange st = st)
  /\ ((parseFloat (tempRate st) <? 1) = true -> handleRateChange st = st)
  /\ ((1 <=? parseFloat (tempRate st)) = true ->
      rate (handleRateChange st) = parseFloat (tempRate st)
      /\ isModalOpen (handleRateChange st) = false
      /\ showSecondHand (handleRateChange st) = tempShowSecondHand st
      /\ showNumbers (handleRateChange st) = tempShowNumbers st
      /\ showDigitalTime (handleRateChange st) = tempShowDigitalTime st
      /\ startDate (handleRateChange st) = JS.Date_new (clock st (clockReads st))
      /\ startTime (handleRateChange st) = clock st (S (clockReads st)))
  /\ (forall i,
        (showSecondHand (handleInput i st), showNumbers (handleInput i st),
         showDigitalTime (handleInput i st), rate (handleInput i st))
        = (showSecondHand st, showNumbers st, showDigitalTime st, rate st)).
Proof.
  intros Hst. split.
  - induction Hst as [c|st _ IH|st _ IH|st _ IH|st _ IH|i st _ IH];
      try exact IH; [reflexivity| |now destruct i].
    unfold handleRateChange.
    destruct (is_nan (parseFloat (tempRate st))); [exact IH|]. simpl.
    destruct (1 <=? parseFloat (tempRate st)) eqn:E; [exact E|exact IH].
  - unfold handleRateChange. split; [now intros ->|]. split.
    + intros Hlow.
      destruct (1 <=? parseFloat (tempRate st)) eqn:E;
        [|now rewrite andb_false_r].
      apply Binary64.leb_ltb_false in E. congruence.
    + split.
      * intros Hok. destruct (Binary64.leb_not_nan _ _ Hok) as [_ Hnan].
        rewrite Hnan, Hok. now repeat split.
      * now destruct i.
Qed.

End WithHost.

(** A [toString] for the two rates of the example below. *)
Definition sampleToString (x : float) : string :=
  if x =? 1.5 then "1.5" else "1.1".

Lemma prototype_rate_at_least_one_witness :
  reachable Storage.sampleParseFloat sampleToString
    (handleRateChange Storage.sampleParseFloat
       (handleInput (TypeRate "abc") (initial (fun _ => 1000))))
  /\ rate (handleRateChange Storage.sampleParseFloat
             (handleInput (TypeRate "abc") (initial (fun _ => 1000)))) = 1.1
  /\ rate (handleRateChange Storage.sampleParseFloat
             (handleInput (TypeRate "1.5") (initial (fun _ => 1000)))) = 1.5.
Proof.
  assert (H : forall text, reachable Storage.sampleParseFloat sampleToString
                (handleInput (TypeRate text) (initial (fun _ => 1000)))).
  { intros text. apply reachable_input, reachable_initial. }
  split; [apply reachable_apply, H|]. split.
  - destruct (prototype_rate_at_least_one Storage.sampleParseFloat
                sampleToString _ (H "abc")) as (_ & Hnan & _).
    now rewrite (Hnan eq_refl).
  - destruct (prototype_rate_at_least_one Storage.sampleParseFloat
                sampleToString _ (H "1.5")) as (_ & _ & _ & Hok & _).
    exact (proj1 (Hok eq_refl)).
Defined.

End Prototype.
